(** * RESTORE energy modelling framework: data handler and model initialisation

    A shallow embedding of [model_utils/data_handler.py] and of the set and
    constraint construction of [model_utils/initialisation.py], together with
    the properties of the parameter store, of the flow/entity connectivity
    helpers and of the global flow balance constraint. *)

From Stdlib Require Import QArith.
From stdpp Require Import gmap strings pretty list fin_maps.

Open Scope string_scope.
Open Scope list_scope.

(** ** Python values and exceptions *)

(** A cell of a configuration sheet once [DataFrame.to_dict] has turned it
    into a Python object: a number (finite numbers are kept as rationals), the
    float [nan] that pandas puts in empty cells, or any non-numeric object
    (text). *)
Inductive value :=
| VNum (q : Q)
| VNaN
| VStr (s : string).

Inductive exception :=
| KeyError (args : list string)
| ValueError (args : list string)
| TypeError
| AssertionError (msg : string)
| IndexError.

(** Outcome of a Python call: a returned object or a raised exception. *)
Inductive result (A : Type) :=
| Ok (a : A)
| Raise (e : exception).
Arguments Ok {A} a.
Arguments Raise {A} e.

#[global] Instance result_ret : MRet result := λ A a, Ok a.
#[global] Instance result_bind : MBind result := λ A B f r,
  match r with
  | Ok a => f a
  | Raise e => Raise e
  end.

Definition is_KeyError {A} (r : result A) : Prop :=
  match r with
  | Raise (KeyError _) => True
  | _ => False
  end.

Definition raises {A} (r : result A) : Prop :=
  match r with
  | Raise _ => True
  | Ok _ => False
  end.

(** [np.isnan]: false on numbers, true on [nan], [TypeError] on objects that
    cannot be coerced to a float. *)
Definition np_isnan (v : value) : result bool :=
  match v with
  | VNum _ => Ok false
  | VNaN => Ok true
  | VStr _ => Raise TypeError
  end.

(** [isinstance(value, Number)]; [nan] is a float. *)
Definition isinstance_Number (v : value) : bool :=
  match v with
  | VNum _ | VNaN => true
  | VStr _ => false
  end.

(** [assert c, msg] *)
Definition assert (c : bool) (msg : string) : result unit :=
  if c then Ok tt else Raise (AssertionError msg).

(** The number that a stored object is, if it is one. *)
Definition as_number (v : value) : option Q :=
  match v with
  | VNum q => Some q
  | _ => None
  end.

(** [None if np.isnan(value) else value]; the [else] branch is only reached
    by numbers, as [np.isnan] raises on the rest. *)
Definition none_if_nan (v : value) : result (option Q) :=
  b ← np_isnan v;
  Ok (if b : bool then None else as_number v).

(** ** The parameter store *)

(** [params[entity_id]]: a dictionary from the data type found in the [Type]
    column to the table of that type. The tables have keys of different
    shapes, so each data type gets a field, [None] when the dictionary has no
    such key. *)
Record entity_params := {
  constant : option (gmap string value);
  configuration : option (gmap string value);
  constant_fxe : option (gmap (string * string) value);
  configuration_fxe : option (gmap (string * string) value);
  annual : option (gmap (string * Z) value);
  annual_fxe : option (gmap (string * string * Z) value)
}.

Definition no_params : entity_params :=
  {| constant := None; configuration := None; constant_fxe := None;
     configuration_fxe := None; annual := None; annual_fxe := None |}.

(** An adjacency sheet ([FiE], [FoE]) read with [index_col=0]: row labels
    (entities), column labels (flows) and the cells, row by row. *)
Record DataFrame := {
  df_index : list string;
  df_columns : list string;
  df_values : list (list value)
}.

Record DataHandler := {
  fxe : gmap string DataFrame;
  params : gmap string entity_params
}.

(** [d[k]] on a dictionary: [KeyError] when the key is missing. *)
Definition getitem `{Countable K} {V} (d : gmap K V) (k : K) (repr : list string)
  : result V :=
  match d !! k with
  | Some v => Ok v
  | None => Raise (KeyError repr)
  end.

(** [d[name]] on [params[entity_id]], for the field [sel] called [name]. *)
Definition getfield {T} (sel : entity_params → option T) (name : string)
    (p : entity_params) : result T :=
  match sel p with
  | Some t => Ok t
  | None => Raise (KeyError [name])
  end.

(** [try: ... except KeyError as exc: raise KeyError(...) from exc]: a
    [KeyError] is replaced by one carrying the given arguments. *)
Definition reraise_KeyError {A} (args : list string) (r : result A) : result A :=
  match r with
  | Raise (KeyError _) => Raise (KeyError args)
  | _ => r
  end.

Definition repr_Z (z : Z) : string := pretty z.

(** [o is None] *)
Definition is_None {A} (o : option A) : bool :=
  match o with
  | None => true
  | Some _ => false
  end.

(** The stored object under [key] in the table [sel] of an entity, if the
    entity has that table and the table has that key. *)
Definition record `{Countable K} (sel : entity_params → option (gmap K value))
    (p : entity_params) (k : K) : option value :=
  t ← sel p; t !! k.

Section accessors.
Context (self : DataHandler).

Definition check_cnf (entity_id parameter : string) : result (option Q) :=
  value ← reraise_KeyError ["Invalid key for"; entity_id; parameter]
    (p ← getitem (params self) entity_id [entity_id];
     t ← getfield configuration "configuration" p;
     getitem t parameter [parameter]);
  c ← (b ← np_isnan value; Ok (b || isinstance_Number value));
  _ ← assert c ("Invalid: " +:+ entity_id +:+ ", " +:+ parameter);
  none_if_nan value.

Definition get_const (entity_id parameter : string) : result (option Q) :=
  value ← reraise_KeyError ["Invalid key for"; entity_id; parameter]
    (p ← getitem (params self) entity_id [entity_id];
     t ← getfield constant "constant" p;
     getitem t parameter [parameter]);
  c ← (if isinstance_Number value then Ok true else np_isnan value);
  _ ← assert c ("Invalid: " +:+ entity_id +:+ ", " +:+ parameter);
  none_if_nan value.

Definition get_const_fxe (entity_id parameter flow : string)
    : result (option Q) :=
  value ← reraise_KeyError ["Invalid key for"; entity_id; parameter; flow]
    (p ← getitem (params self) entity_id [entity_id];
     t ← getfield constant_fxe "constant_fxe" p;
     getitem t (parameter, flow) [parameter; flow]);
  c ← (if isinstance_Number value then Ok true else np_isnan value);
  _ ← assert c ("Invalid: " +:+ entity_id +:+ ", " +:+ parameter +:+ ", "
                 +:+ flow);
  none_if_nan value.

Definition get_annual (entity_id parameter : string) (year : Z)
    : result (option Q) :=
  p ← getitem (params self) entity_id [entity_id];
  t ← getfield annual "annual" p;
  value ← getitem t (parameter, year) [parameter; repr_Z year];
  c ← (if isinstance_Number value then Ok true else np_isnan value);
  _ ← assert c ("Invalid: " +:+ entity_id +:+ ", " +:+ parameter +:+ ", "
                 +:+ repr_Z year);
  none_if_nan value.

Definition get_annual_fxe (entity_id parameter flow : string) (year : Z)
    : result (option Q) :=
  p ← getitem (params self) entity_id [entity_id];
  t ← getfield annual_fxe "annual_fxe" p;
  value ← getitem t (parameter, flow, year) [parameter; flow; repr_Z year];
  c ← (if isinstance_Number value then Ok true else np_isnan value);
  _ ← assert c ("Invalid: " +:+ entity_id +:+ ", " +:+ parameter +:+ ", "
                 +:+ flow +:+ ", " +:+ repr_Z year);
  none_if_nan value.

(** ["name" in params[entity_id] and key in params[entity_id]["name"]] *)
Definition has_record `{Countable K} (sel : entity_params → option (gmap K value))
    (p : entity_params) (k : K) : bool :=
  match sel p with
  | Some t => bool_decide (is_Some (t !! k))
  | None => false
  end.

(** The generic getters keep two locals, [value] and [found]; each [if]
    of the source is one step on that pair. *)
Definition get (entity_id parameter : string) (year : Z)
    (trigger_error : bool) : result (option Q) :=
  let value : option Q := None in
  let found := false in
  p ← getitem (params self) entity_id [entity_id];
  '(value, found) ←
    (if has_record annual p (parameter, year)
     then v ← get_annual entity_id parameter year; Ok (v, true)
     else Ok (value, found));
  '(value, found) ←
    (if is_None value && has_record constant p parameter
     then v ← get_const entity_id parameter; Ok (v, true)
     else Ok (value, found));
  if negb found && trigger_error
  then Raise (KeyError ["Parameter"; parameter; "not found for"; entity_id])
  else Ok value.

Definition get_fxe (entity_id parameter flow : string) (year : Z)
    (trigger_error : bool) : result (option Q) :=
  let value : option Q := None in
  let found := false in
  p ← getitem (params self) entity_id [entity_id];
  '(value, found) ←
    (if has_record annual_fxe p (parameter, flow, year)
     then v ← get_annual_fxe entity_id parameter flow year; Ok (v, true)
     else Ok (value, found));
  '(value, found) ←
    (if is_None value
     then
       if has_record constant_fxe p (parameter, flow)
       then v ← get_const_fxe entity_id parameter flow; Ok (v, true)
       else Ok (value, found)
     else Ok (value, found));
  if negb found && trigger_error
  then Raise (KeyError ["Parameter"; parameter; "not found for"; entity_id;
                        "and"; flow])
  else Ok value.

End accessors.

(** [check_cnf(i, parameter) == 1], on the returned object: [None == 1] is
    false, a number is compared by value. *)
Definition eq_one (r : option Q) : bool :=
  match r with
  | Some q => Qeq_bool q 1
  | None => false
  end.

(** [[i for i in entity_set if self.check_cnf(i, parameter) == 1]]: the
    comprehension stops at the first call that raises. *)
Fixpoint cnf_enabled (self : DataHandler) (entities : list string)
    (parameter : string) : result (list string) :=
  match entities with
  | [] => Ok []
  | i :: rest =>
      r ← check_cnf self i parameter;
      tl ← cnf_enabled self rest parameter;
      Ok (if eq_one r then i :: tl else tl)
  end.

Definition build_cnf_set (self : DataHandler) (entity_set : gset string)
    (parameter : string) : result (gset string) :=
  config_enabled ← cnf_enabled self (elements entity_set) parameter;
  Ok (list_to_set config_enabled).

(** ** Flow/entity connectivity *)

(** A cell that [DataFrame.stack] drops: an empty one. *)
Definition isna (v : value) : bool :=
  match v with
  | VNaN => true
  | _ => false
  end.

(** [list(io_df.stack().index)]: the (row label, column label) pairs of the
    cells that are not empty, row by row. *)
Definition stack_index (io_df : DataFrame) : list (string * string) :=
  '(r, cells) ← zip (df_index io_df) (df_values io_df);
  '(c, v) ← zip (df_columns io_df) cells;
  if isna v then [] else [(r, c)].

(** [io_df.T] *)
Definition transpose (io_df : DataFrame) : DataFrame :=
  {| df_index := df_columns io_df;
     df_columns := df_index io_df;
     df_values :=
       imap (λ j _, (λ cells, default VNaN (cells !! j)) <$> df_values io_df)
            (df_columns io_df) |}.

(** [io_dict.setdefault(f, []).append(p)] *)
Definition setdefault_append (io_dict : gmap string (list string))
    (f p : string) : gmap string (list string) :=
  <[f := default [] (io_dict !! f) ++ [p]]> io_dict.

Definition get_flow_entity_dict (io_df : DataFrame) (by_entity : bool)
    : gmap string (list string) :=
  let flows := df_columns io_df in
  let io_dict : gmap string (list string) :=
    foldl (λ d f, <[f := []]> d) ∅ flows in
  let index_tuples :=
    if negb by_entity then stack_index io_df
    else stack_index (transpose io_df) in
  let io_dict :=
    foldl (λ d '(p, f), setdefault_append d f p) io_dict index_tuples in
  filter (λ kv, kv.2 ≠ []) io_dict.

(** [out_dict[k].extend(i)] for every item of [d]. *)
Definition extend_items {A} (d : gmap string (list A))
    (out_dict : result (gmap string (list A))) : result (gmap string (list A)) :=
  map_fold (λ k i acc,
      out ← acc;
      l ← getitem out k [k];
      Ok (<[k := l ++ i]> out))
    out_dict d.

Definition merge_dicts {A} (dict1 dict2 : gmap string (list A))
    : result (gmap string (list A)) :=
  let keys : gset string := dom dict1 ∪ dom dict2 in
  let out_dict : gmap string (list A) := gset_to_gmap [] keys in
  foldl (λ out d, extend_items d out) (Ok out_dict) [dict1; dict2].

(** ** Construction of the store *)

(** Modelled from the spec: [data.zenodo_to_cnf.CNF_INDEX] is not part of the
    sources. The spec names the index columns of a parameter sheet, [Type],
    [Parameter], [Flow] and [Year], which are the columns that the
    constructor drops or indexes by. They are the fields of a row of the
    sheet that [pd.read_excel(path, sheet_name=group)] returns, and
    [sheet_df.columns.drop(CNF_INDEX)] is the list of the other column
    labels, one per entity. *)
Record ParamRow := {
  row_Type : string;
  row_Parameter : string;
  row_Flow : string;
  row_Year : Z;
  row_cells : gmap string value
}.

Record ParamSheet := {
  entity_columns : list string;
  rows : list ParamRow
}.

(** [pd.ExcelFile(path)] and the two ways the constructor reads a sheet. *)
Record ExcelFile := {
  sheet_names : list string;
  read_excel_index_col0 : string → DataFrame;
  read_excel : string → ParamSheet
}.

(** [Series.unique]: distinct items in order of first appearance. *)
Fixpoint unique (l : list string) : list string :=
  match l with
  | [] => []
  | x :: l => x :: filter (λ y, y ≠ x) (unique l)
  end.

(** [entity_df.to_dict()[entity_id]] once the index is set: later rows
    overwrite earlier ones with the same key; an empty cell holds [nan]. *)
Definition to_dict `{Countable K} (key : ParamRow → K) (entity_id : string)
    (entity_df : list ParamRow) : gmap K value :=
  foldl (λ d r, <[key r := default VNaN (row_cells r !! entity_id)]> d) ∅ entity_df.

(** [params[entity_id][data_type] = ...] for the recognised data types;
    [None] for any other one. *)
Definition set_data_type (data_type entity_id : string) (entity_df : list ParamRow)
    (p : entity_params) : option entity_params :=
  if decide (data_type = "constant") then
    Some {| constant := Some (to_dict row_Parameter entity_id entity_df);
            configuration := configuration p; constant_fxe := constant_fxe p;
            configuration_fxe := configuration_fxe p; annual := annual p;
            annual_fxe := annual_fxe p |}
  else if decide (data_type = "configuration") then
    Some {| constant := constant p;
            configuration := Some (to_dict row_Parameter entity_id entity_df);
            constant_fxe := constant_fxe p;
            configuration_fxe := configuration_fxe p; annual := annual p;
            annual_fxe := annual_fxe p |}
  else if decide (data_type = "constant_fxe") then
    Some {| constant := constant p; configuration := configuration p;
            constant_fxe :=
              Some (to_dict (λ r, (row_Parameter r, row_Flow r)) entity_id entity_df);
            configuration_fxe := configuration_fxe p; annual := annual p;
            annual_fxe := annual_fxe p |}
  else if decide (data_type = "configuration_fxe") then
    Some {| constant := constant p; configuration := configuration p;
            constant_fxe := constant_fxe p;
            configuration_fxe :=
              Some (to_dict (λ r, (row_Parameter r, row_Flow r)) entity_id entity_df);
            annual := annual p; annual_fxe := annual_fxe p |}
  else if decide (data_type = "annual") then
    Some {| constant := constant p; configuration := configuration p;
            constant_fxe := constant_fxe p;
            configuration_fxe := configuration_fxe p;
            annual :=
              Some (to_dict (λ r, (row_Parameter r, row_Year r)) entity_id entity_df);
            annual_fxe := annual_fxe p |}
  else if decide (data_type = "annual_fxe") then
    Some {| constant := constant p; configuration := configuration p;
            constant_fxe := constant_fxe p;
            configuration_fxe := configuration_fxe p; annual := annual p;
            annual_fxe :=
              Some (to_dict (λ r, (row_Parameter r, row_Flow r, row_Year r)) entity_id
                      entity_df) |}
  else None.

(** The loop over [id_cnf["Type"].unique()] for one entity column. *)
Definition read_entity (group entity_id : string) (sheet_df : ParamSheet)
    : result entity_params :=
  foldl (λ acc data_type,
      p ← acc;
      let entity_df := filter (λ r, row_Type r = data_type) (rows sheet_df) in
      match set_data_type data_type entity_id entity_df p with
      | Some p' => Ok p'
      | None =>
          Raise (ValueError ["Invalid Data Type"; data_type; "in"; group;
                             entity_id])
      end)
    (Ok no_params) (unique (row_Type <$> rows sheet_df)).

(** One turn of the loop over the entity columns of a parameter sheet. *)
Definition read_column (group : string) (sheet_df : ParamSheet)
    (acc : result (gmap string entity_params)) (entity_id : string)
    : result (gmap string entity_params) :=
  params ← acc;
  if bool_decide (is_Some (params !! entity_id))
  then Raise (ValueError ["Found duplicate id"; entity_id; "in sheet"; group])
  else
    p ← read_entity group entity_id sheet_df;
    Ok (<[entity_id := p]> params).

Definition read_sheet (group : string) (sheet_df : ParamSheet)
    (params : gmap string entity_params) : result (gmap string entity_params) :=
  foldl (read_column group sheet_df) (Ok params) (entity_columns sheet_df).

(** One turn of the loop over the sheets of the workbook. *)
Definition read_group (excel_file : ExcelFile) (acc : result DataHandler)
    (group : string) : result DataHandler :=
  self ← acc;
  if bool_decide (group ∈ ["FiE"; "FoE"])
  then Ok {| fxe := <[group := read_excel_index_col0 excel_file group]> (fxe self);
             params := params self |}
  else
    params' ← read_sheet group (read_excel excel_file group) (params self);
    Ok {| fxe := fxe self; params := params' |}.

(** [DataHandler.__init__] *)
Definition DataHandler_init (excel_file : ExcelFile) : result DataHandler :=
  foldl (read_group excel_file) (Ok {| fxe := ∅; params := ∅ |})
        (sheet_names excel_file).

(** ** Model initialisation *)

(** The names of [model_utils/configuration.py] that the initialisation
    reads. That module is not part of the sources; its module-level constants
    are the fields of this record. *)
Record Cnf := {
  YEARS : list Z;
  DAYS : list Z;
  HOURS : list Z;
  ENTITIES : list string;
  FLOWS : list string;
  DATA : DataHandler
}.

(** The decision variables that the flow balance mentions, by index. *)
Inductive variable :=
| fout (f e : string) (y d h : Z)
| fin (f e : string) (y d h : Z).

(** Symbolic expressions as built by Python arithmetic on model variables. *)
Inductive expr :=
| Const (q : Q)
| Var (v : variable)
| Add (a b : expr).

Inductive relational :=
| EqualityExpression (lhs rhs : expr)
| InequalityExpression (lhs rhs : expr).

(** What a constraint rule hands back: a relation between expressions, or a
    plain Python boolean when both sides are plain numbers. *)
Inductive rule_result :=
| Relation (r : relational)
| Trivial (b : bool).

Module model.

(** The components that [_init_sets] and [init_model] attach to the model.
    An ordered set is kept as the sequence of its members in insertion
    order. *)
Record ConcreteModel := {
  Y : list Z;
  Y0 : list Z;
  YALL : list Z;
  D : list Z;
  DALL : list Z;
  H : list Z;
  H0 : list Z;
  E : gset string;
  F : gset string;
  Pros : gset string;
  Caps : gset string;
  FiE : gset (string * string);
  FoE : gset (string * string);
  c_io_balance : gmap (string * Z * Z * Z) relational
}.

End model.

Abbreviation ConcreteModel := model.ConcreteModel.

(** [seq[0]] and [seq[-1]] *)
Definition first_item (l : list Z) : result Z :=
  match l with
  | x :: _ => Ok x
  | [] => Raise IndexError
  end.

Definition last_item (l : list Z) : result Z :=
  match last l with
  | Some x => Ok x
  | None => Raise IndexError
  end.

(** [range(a, b)] *)
Definition range (a b : Z) : list Z := seqZ a (b - a).

(** [{(f, e) for f in flows for e in f_x[f]}] *)
Fixpoint flow_entity_pairs (flows : list string) (f_x : gmap string (list string))
    : result (list (string * string)) :=
  match flows with
  | [] => Ok []
  | f :: rest =>
      es ← getitem f_x f [f];
      tl ← flow_entity_pairs rest f_x;
      Ok (((λ e, (f, e)) <$> es) ++ tl)
  end.

(** [pyo.Set(within=fxe, initialize=pairs)] with [fxe = model.F * model.E]:
    adding a member outside of the domain is refused. *)
Definition Set_within (F E : gset string) (pairs : list (string * string))
    : result (gset (string * string)) :=
  if bool_decide (Forall (λ fe, fe.1 ∈ F ∧ fe.2 ∈ E) pairs)
  then Ok (list_to_set pairs)
  else Raise (ValueError ["Cannot add value to Set: not in the domain"]).

(** [Set.add]: a member that the set already holds is not added again. *)
Definition Set_add (members : list Z) (x : Z) : list Z :=
  if decide (x ∈ members) then members else members ++ [x].

(** [pyo.Set(initialize=seq, ordered=True)]: the items of the sequence are
    added one by one, so that the set holds every distinct item once, at the
    place of its first appearance. *)
Definition Set_ordered (initialize : list Z) : list Z :=
  foldl Set_add [] initialize.

(** [Y0] and [H0] are initialised from a single item and [YALL] and [DALL]
    from a [range], which repeats no item: these four sets hold their
    initialiser as it is. *)
Definition _init_sets (cnf : Cnf) : result ConcreteModel :=
  let Y := Set_ordered (YEARS cnf) in
  y0 ← first_item (YEARS cnf);
  Y_first ← first_item Y;
  Y_last ← last_item Y;
  let YALL := range Y_first (Y_last + 1) in
  h0 ← first_item (HOURS cnf);
  let entities : gset string := list_to_set (ENTITIES cnf) in
  let flows : gset string := list_to_set (FLOWS cnf) in
  let demands : gset string :=
    list_to_set (filter (λ e, String.prefix "dem_" e = true) (ENTITIES cnf)) in
  let processes := entities ∖ demands in
  capacity ← build_cnf_set (DATA cnf) processes "enable_capacity";
  FiE_df ← getitem (fxe (DATA cnf)) "FiE" ["FiE"];
  let f_in := get_flow_entity_dict FiE_df false in
  FoE_df ← getitem (fxe (DATA cnf)) "FoE" ["FoE"];
  let f_out := get_flow_entity_dict FoE_df false in
  FiE_pairs ← flow_entity_pairs (elements flows) f_in;
  FiE ← Set_within flows entities FiE_pairs;
  FoE_pairs ← flow_entity_pairs (elements flows) f_out;
  FoE ← Set_within flows entities FoE_pairs;
  Ok {| model.Y := Y; model.Y0 := [y0]; model.YALL := YALL;
        model.D := Set_ordered (DAYS cnf); model.DALL := range 0 365;
        model.H := Set_ordered (HOURS cnf); model.H0 := [h0];
        model.E := entities; model.F := flows;
        model.Pros := processes; model.Caps := capacity;
        model.FiE := FiE; model.FoE := FoE;
        model.c_io_balance := ∅ |}.

(** [model.fout[f, e, y, d, h]] and [model.fin[f, e, y, d, h]]: the variables
    are declared by [_init_variables] over [FoE x Y x D x H] and
    [FiE x Y x D x H]; any other index is a [KeyError]. *)
Definition getitem_fout (m : ConcreteModel) (f e : string) (y d h : Z)
    : result expr :=
  if bool_decide ((f, e) ∈ model.FoE m ∧ y ∈ model.Y m ∧ d ∈ model.D m
                  ∧ h ∈ model.H m)
  then Ok (Var (fout f e y d h))
  else Raise (KeyError ["fout"; f; e; repr_Z y; repr_Z d; repr_Z h]).

Definition getitem_fin (m : ConcreteModel) (f e : string) (y d h : Z)
    : result expr :=
  if bool_decide ((f, e) ∈ model.FiE m ∧ y ∈ model.Y m ∧ d ∈ model.D m
                  ∧ h ∈ model.H m)
  then Ok (Var (fin f e y d h))
  else Raise (KeyError ["fin"; f; e; repr_Z y; repr_Z d; repr_Z h]).

(** Python's [sum]: a left fold of [+] starting from the integer 0. *)
Definition py_sum (terms : list expr) : expr := foldl Add (Const 0) terms.

(** [a == b]: a Python boolean between two plain numbers, an equality
    expression as soon as a model variable is involved. *)
Definition py_eq (a b : expr) : rule_result :=
  match a, b with
  | Const x, Const y => Trivial (Qeq_bool x y)
  | _, _ => Relation (EqualityExpression a b)
  end.

(** [model.x[f, e, y, d, h] for (f, e) in rel if f == flow_id] *)
Definition terms_of (getvar : string → string → result expr)
    (rel : gset (string * string)) (flow_id : string) : result (list expr) :=
  mapM (λ fe, getvar fe.1 fe.2)
       (filter (λ fe, fe.1 = flow_id) (elements rel)).

Definition _c_io_balance (m : ConcreteModel) (flow_id : string) (y d h : Z)
    : result rule_result :=
  outs ← terms_of (λ f e, getitem_fout m f e y d h) (model.FoE m) flow_id;
  let outflows_prev := py_sum outs in
  ins ← terms_of (λ f e, getitem_fin m f e y d h) (model.FiE m) flow_id;
  let inflows_next := py_sum ins in
  Ok (py_eq outflows_prev inflows_next).

(** One call of a constraint rule: a rule that returns a plain boolean is
    refused. *)
Definition add_constraint (rule : string → Z → Z → Z → result rule_result)
    (acc : result (gmap (string * Z * Z * Z) relational))
    (i : string * Z * Z * Z) : result (gmap (string * Z * Z * Z) relational) :=
  cs ← acc;
  let '(f, y, d, h) := i in
  r ← rule f y d h;
  match r with
  | Relation c => Ok (<[i := c]> cs)
  | Trivial _ => Raise (ValueError ["Constraint resolved to a trivial Boolean"])
  end.

(** [pyo.Constraint(F, Y, D, H, rule=...)]: the rule is called at every index
    of the product. *)
Definition Constraint (index : list (string * Z * Z * Z))
    (rule : string → Z → Z → Z → result rule_result)
    : result (gmap (string * Z * Z * Z) relational) :=
  foldl (add_constraint rule) (Ok ∅) index.

(** The index set [F x Y x D x H]. *)
Definition balance_index (m : ConcreteModel) : list (string * Z * Z * Z) :=
  f ← elements (model.F m);
  y ← model.Y m;
  d ← model.D m;
  h ← model.H m;
  [(f, y, d, h)].

(** [_discount_rates] is evaluated at every year of [YALL]; its value is a
    float and is not kept, only whether reading the discount factor and
    adding 1 to it raises. *)
Definition _init_parameters (cnf : Cnf) (m : ConcreteModel) : result unit :=
  match model.YALL m with
  | [] => Ok tt
  | _ :: _ =>
      discount ← get_const (DATA cnf) "country" "discount_factor";
      match discount with
      | Some _ => Ok tt
      | None => Raise TypeError
      end
  end.

Section init_model.
(** The expression rules live in [model_generic/generic_expressions.py],
    which is not part of the sources: building them either goes through or
    raises. *)
Context (_init_expressions : Cnf → ConcreteModel → result unit).

(** [_init_variables] only declares the variables, over the index sets that
    [getitem_fout] and [getitem_fin] check, and does not raise. *)
Definition init_model (cnf : Cnf) : result ConcreteModel :=
  m ← _init_sets cnf;
  _ ← _init_parameters cnf m;
  _ ← _init_expressions cnf m;
  c ← Constraint (balance_index m) (_c_io_balance m);
  Ok {| model.Y := model.Y m; model.Y0 := model.Y0 m;
        model.YALL := model.YALL m; model.D := model.D m;
        model.DALL := model.DALL m; model.H := model.H m;
        model.H0 := model.H0 m; model.E := model.E m; model.F := model.F m;
        model.Pros := model.Pros m; model.Caps := model.Caps m;
        model.FiE := model.FiE m; model.FoE := model.FoE m;
        model.c_io_balance := c |}.
End init_model.

(** Meaning of the symbolic objects under an assignment of the variables. *)
Fixpoint eval (ρ : variable → Q) (e : expr) : Q :=
  match e with
  | Const q => q
  | Var v => ρ v
  | Add a b => (eval ρ a + eval ρ b)%Q
  end.

Definition holds (ρ : variable → Q) (c : relational) : Prop :=
  match c with
  | EqualityExpression a b => (eval ρ a == eval ρ b)%Q
  | InequalityExpression a b => (eval ρ a <= eval ρ b)%Q
  end.

(** The variables of an expression, left to right. *)
Fixpoint vars (e : expr) : list variable :=
  match e with
  | Const _ => []
  | Var v => [v]
  | Add a b => vars a ++ vars b
  end.

(** The sum of the values of a list of variables. *)
Definition total (ρ : variable → Q) (vs : list variable) : Q :=
  foldr (λ v acc, (ρ v + acc)%Q) 0%Q vs.

(** ** Reading the stored objects *)

(** How a stored object is surfaced by the direct accessors: a number as
    itself, [nan] as [None], anything else makes [np.isnan] raise. *)
Definition surface (v : value) : result (option Q) :=
  match v with
  | VNum q => Ok (Some q)
  | VNaN => Ok None
  | VStr _ => Raise TypeError
  end.

(** The two-table lookup behind [get] and [get_fxe], on the stored
    objects. *)
Definition resolve (first second : option value) (trigger_error : bool)
    (not_found : exception) : result (option Q) :=
  match first, second with
  | Some (VStr _), _ => Raise TypeError
  | Some (VNum q), _ => Ok (Some q)
  | Some VNaN, Some v => surface v
  | Some VNaN, None => Ok None
  | None, Some v => surface v
  | None, None => if trigger_error then Raise not_found else Ok None
  end.


(** ** Sample stores *)

Module Samples.

Definition table1 `{Countable K} (k : K) (v : value) : option (gmap K value) :=
  Some {[ k := v ]}.

(** A technology with an annual cell [a] and a constant [c] for its
    efficiency, overall and for the flow [elec], with capacity enabled and
    the trade option left empty. *)
Definition pv (a c : value) : entity_params :=
  {| constant := table1 "efficiency" c;
     configuration :=
       Some {[ "enable_capacity" := VNum 1; "enable_trade" := VNaN ]};
     constant_fxe := table1 ("efficiency", "elec") c;
     configuration_fxe := None;
     annual := table1 ("efficiency", 2020%Z) a;
     annual_fxe := table1 ("efficiency", "elec", 2020%Z) a |}.

Definition pv_store (a c : value) : DataHandler :=
  {| fxe := ∅; params := {[ "conv_elec_pv" := pv a c ]} |}.

Definition empty_store : DataHandler := {| fxe := ∅; params := ∅ |}.

End Samples.

(** ** Reading the connectivity *)

(** The index tuples that [get_flow_entity_dict] walks through. *)
Definition index_tuples (io_df : DataFrame) (by_entity : bool)
    : list (string * string) :=
  if negb by_entity then stack_index io_df else stack_index (transpose io_df).

(** The first components of the tuples whose second component is [f], in
    the order of the tuples. *)
Definition connected (tuples : list (string * string)) (f : string)
    : list string :=
  (filter (λ pf, pf.2 = f) tuples).*1.

(** ** Reading a workbook *)

(** The data types that the constructor knows. *)
Definition recognised (data_type : string) : Prop :=
  data_type ∈ ["constant"; "configuration"; "constant_fxe";
               "configuration_fxe"; "annual"; "annual_fxe"].

(** The sheets that are read as parameter sheets, in workbook order. *)
Definition parameter_sheets_of (groups : list string) : list string :=
  filter (λ g, g ∉ ["FiE"; "FoE"]) groups.

(** The entity columns of the given sheets, each with its sheet, in the
    order in which the constructor meets them. *)
Definition columns_of (excel_file : ExcelFile) (groups : list string)
    : list (string * string) :=
  g ← parameter_sheets_of groups;
  (λ e, (g, e)) <$> entity_columns (read_excel excel_file g).

Definition parameter_columns (excel_file : ExcelFile) : list (string * string) :=
  columns_of excel_file (sheet_names excel_file).

(** Every row of every parameter sheet carries a recognised data type. *)
Definition recognised_types (excel_file : ExcelFile) (groups : list string)
    : Prop :=
  ∀ g, g ∈ parameter_sheets_of groups →
    Forall (λ r, recognised (row_Type r)) (rows (read_excel excel_file g)).

(** The first column whose identifier was seen before it. *)
Fixpoint first_repeat (seen : gset string) (cols : list (string * string))
    : option (string * string) :=
  match cols with
  | [] => None
  | (g, e) :: cols =>
      if decide (e ∈ seen) then Some (g, e)
      else first_repeat ({[e]} ∪ seen) cols
  end.

Definition duplicate_id_error (entity_id group : string) : exception :=
  ValueError ["Found duplicate id"; entity_id; "in sheet"; group].

Definition invalid_type_error {A} (r : result A) : Prop :=
  ∃ data_type group entity_id,
    r = Raise (ValueError ["Invalid Data Type"; data_type; "in"; group;
                           entity_id]).

Module Workbooks.

Definition row (data_type parameter : string) (values : list (string * value))
    : ParamRow :=
  {| row_Type := data_type; row_Parameter := parameter; row_Flow := EmptyString;
     row_Year := 0; row_cells := list_to_map values |}.

(** A sheet of technologies. *)
Definition tech : ParamSheet :=
  {| entity_columns := ["conv_elec_pv"; "conv_elec_wind"];
     rows := [row "constant" "lifetime"
                [("conv_elec_pv", VNum 25); ("conv_elec_wind", VNum 20)];
              row "configuration" "enable_capacity"
                [("conv_elec_pv", VNum 1); ("conv_elec_wind", VNum 1)]] |}.

(** The same sheet with a row of an unknown data type. *)
Definition tech_bad_type : ParamSheet :=
  {| entity_columns := entity_columns tech;
     rows := rows tech ++ [row "yearly" "efficiency" []] |}.

(** A second sheet that repeats a column of the first one. *)
Definition storage : ParamSheet :=
  {| entity_columns := ["sto_elec_battery"; "conv_elec_wind"];
     rows := [row "constant" "lifetime"
                [("sto_elec_battery", VNum 15); ("conv_elec_wind", VNum 20)]] |}.

Definition no_adjacency : DataFrame :=
  {| df_index := []; df_columns := []; df_values := [] |}.

Definition workbook (first : ParamSheet) : ExcelFile :=
  {| sheet_names := ["FiE"; "tech"; "storage"];
     read_excel_index_col0 := λ _, no_adjacency;
     read_excel := λ g, if decide (g = "tech") then first else storage |}.

End Workbooks.

(** ** Reading the flow balance *)

(** The members of a relation at one flow, as the balance rule walks them. *)
Definition at_flow (flow_id : string) (rel : gset (string * string))
    : list (string * string) :=
  filter (λ fe, fe.1 = flow_id) (elements rel).

(** ** A small energy system *)

Module System.

Definition FiE_df : DataFrame :=
  {| df_index := ["conv_elec_pv"; "dem_elec"];
     df_columns := ["elec"; "sun"; "heat"];
     df_values := [[VNaN; VNum 1; VNaN]; [VNum 1; VNaN; VNaN]] |}.

Definition FoE_df : DataFrame :=
  {| df_index := ["ext_sun"; "conv_elec_pv"];
     df_columns := ["elec"; "sun"; "heat"];
     df_values := [[VNaN; VNum 1; VNaN]; [VNum 1; VNaN; VNaN]] |}.

(** An entity with a discount factor and the given capacity flag. *)
Definition flagged (flag : value) : entity_params :=
  {| constant := Some {[ "discount_factor" := VNum 0.05 ]};
     configuration := Some {[ "enable_capacity" := flag ]};
     constant_fxe := None; configuration_fxe := None;
     annual := None; annual_fxe := None |}.

Definition data : DataHandler :=
  {| fxe := {[ "FiE" := FiE_df; "FoE" := FoE_df ]};
     params := {[ "conv_elec_pv" := flagged (VNum 1);
                  "ext_sun" := flagged VNaN;
                  "dem_elec" := flagged (VNum 1);
                  "country" := flagged VNaN ]} |}.

Definition cnf : Cnf :=
  {| YEARS := [2020; 2025]%Z; DAYS := [0]%Z; HOURS := [0; 12]%Z;
     ENTITIES := ["conv_elec_pv"; "ext_sun"; "dem_elec"];
     FLOWS := ["elec"; "sun"];
     DATA := data |}.

(** No expression rule raises. *)
Definition expressions : Cnf → ConcreteModel → result unit := λ _ _, Ok tt.

End System.

(** ** Reading the store from outside *)

(** The stored object that a direct accessor reads for an entity: none when
    the store has no entry for the entity, when the entity has no table of
    that data type, or when the table has no such key. *)
Definition stored `{Countable K} (self : DataHandler)
    (sel : entity_params → option (gmap K value)) (entity_id : string) (k : K)
    : option value :=
  p ← params self !! entity_id; record sel p k.

(** ** Reading an adjacency table *)

(** The table has a cell that is not empty in a row labelled [r] and a column
    labelled [c]. *)
Definition connects (io_df : DataFrame) (r c : string) : Prop :=
  ∃ (i j : nat) (cells : list value) (v : value),
    df_index io_df !! i = Some r
    ∧ df_values io_df !! i = Some cells
    ∧ df_columns io_df !! j = Some c
    ∧ cells !! j = Some v
    ∧ v ≠ VNaN.

(** The entity [e] is listed under the key [k] of a dictionary. *)
Definition listed {A} (d : gmap string (list A)) (k : string) (e : A) : Prop :=
  ∃ l, d !! k = Some l ∧ e ∈ l.

(** ** Reading a parameter sheet *)

(** The object in the column of an entity on a row; an empty cell holds
    [nan]. *)
Definition cell (r : ParamRow) (entity_id : string) : value :=
  default VNaN (row_cells r !! entity_id).

(** The last row of a data type that carries a key. *)
Definition last_row `{Countable K} (data_type : string) (key : ParamRow → K)
    (k : K) (sheet_df : ParamSheet) : option ParamRow :=
  last (filter (λ r, key r = k)
          (filter (λ r, row_Type r = data_type) (rows sheet_df))).

(** The table of a data type that the rows of a sheet give to an entity:
    none when no row has the type. *)
Definition table_of `{Countable K} (data_type : string) (key : ParamRow → K)
    (entity_id : string) (sheet_df : ParamSheet) : option (gmap K value) :=
  if decide (data_type ∈ row_Type <$> rows sheet_df)
  then Some (to_dict key entity_id
               (filter (λ r, row_Type r = data_type) (rows sheet_df)))
  else None.

#[global] Instance recognised_dec (data_type : string)
  : Decision (recognised data_type).
Proof. unfold recognised. apply _. Defined.

(** ** Reading a flag *)

(** The truth value of an object that an accessor returns, as [bool] gives
    it: [None] and zero are false, any other number is true. *)
Definition truthy (r : option Q) : bool :=
  match r with
  | Some q => negb (Qeq_bool q 0)
  | None => false
  end.

(** The sample system with the capacity flag of the PV technology at 2. *)
Module Capacity.

Definition data : DataHandler :=
  {| fxe := fxe System.data;
     params := <[ "conv_elec_pv" := System.flagged (VNum 2) ]>
                 (params System.data) |}.

Definition cnf : Cnf :=
  {| YEARS := YEARS System.cnf; DAYS := DAYS System.cnf;
     HOURS := HOURS System.cnf; ENTITIES := ENTITIES System.cnf;
     FLOWS := FLOWS System.cnf; DATA := data |}.

End Capacity.

(** ** Reading the configured years *)

(** Of the items of a sequence, [x] is the one that appears last for the
    first time: nothing before its first appearance equals it, and whatever
    follows was met before. *)
Definition last_to_appear (l : list Z) (x : Z) : Prop :=
  ∃ pre post, l = pre ++ x :: post ∧ x ∉ pre
              ∧ ∀ y, y ∈ post → y ∈ pre ∨ y = x.

(** The sample system with the first year configured a second time. *)
Module Repeated.

Definition cnf : Cnf :=
  {| YEARS := [2020; 2025; 2020]%Z; DAYS := DAYS System.cnf;
     HOURS := HOURS System.cnf; ENTITIES := ENTITIES System.cnf;
     FLOWS := FLOWS System.cnf; DATA := DATA System.cnf |}.

End Repeated.

(** ** A system with passenger transport *)

(** A car that turns electricity into passenger kilometres, next to the PV
    technology and the two demands. *)
Module Transport.

Definition FiE_df : DataFrame :=
  {| df_index := ["conv_pass_car"; "dem_pass"; "conv_elec_pv"; "dem_elec"];
     df_columns := ["elec"; "pkm"; "sun"];
     df_values := [[VNum 1; VNaN; VNaN]; [VNaN; VNum 1; VNaN];
                   [VNaN; VNaN; VNum 1]; [VNum 1; VNaN; VNaN]] |}.

Definition FoE_df : DataFrame :=
  {| df_index := ["conv_pass_car"; "conv_elec_pv"; "ext_sun"];
     df_columns := ["elec"; "pkm"; "sun"];
     df_values := [[VNaN; VNum 1; VNaN]; [VNum 1; VNaN; VNaN];
                   [VNaN; VNaN; VNum 1]] |}.

Definition data : DataHandler :=
  {| fxe := {[ "FiE" := FiE_df; "FoE" := FoE_df ]};
     params := {[ "conv_pass_car" := System.flagged (VNum 1);
                  "conv_elec_pv" := System.flagged (VNum 1);
                  "ext_sun" := System.flagged VNaN ]} |}.

Definition cnf : Cnf :=
  {| YEARS := [2020]%Z; DAYS := [0]%Z; HOURS := [0]%Z;
     ENTITIES := ["conv_pass_car"; "conv_elec_pv"; "ext_sun"; "dem_pass";
                  "dem_elec"];
     FLOWS := ["elec"; "pkm"; "sun"];
     DATA := data |}.

End Transport.

(** ** The passenger transport sector *)

(** The sets of [model_modules/passenger.py], built on a model whose global
    sets are in place. *)
Module passenger.

Definition GROUP_ID : string := "conv_pass_".

Record SectorSets := {
  PassTrans : gset string;
  PassTransFoE : gset (string * string);
  PassTransFiE : gset (string * string)
}.

(** [{(f, e) for f, e in rel if e in techs}] *)
Definition pairs_of (techs : gset string) (rel : gset (string * string))
    : list (string * string) :=
  filter (λ fe, fe.2 ∈ techs) (elements rel).

Definition _sets (cnf : Cnf) (m : ConcreteModel) : result SectorSets :=
  let techs : gset string :=
    list_to_set (filter (λ e, String.prefix GROUP_ID e = true) (ENTITIES cnf)) in
  PassTransFoE ← Set_within (model.F m) (model.E m)
                    (pairs_of techs (model.FoE m));
  PassTransFiE ← Set_within (model.F m) (model.E m)
                    (pairs_of techs (model.FiE m));
  Ok {| PassTrans := techs;
        PassTransFoE := PassTransFoE;
        PassTransFiE := PassTransFiE |}.

End passenger.

(** ** Properties of the accessors *)

Lemma has_record_spec `{Countable K} (sel : entity_params → option (gmap K value))
    (p : entity_params) (k : K) :
  has_record sel p k = bool_decide (is_Some (record sel p k)).
Proof.
  unfold has_record, record. by destruct (sel p) as [t|].
Qed.

Lemma has_record_Some `{Countable K} (sel : entity_params → option (gmap K value))
    (p : entity_params) (k : K) (v : value) :
  record sel p k = Some v → has_record sel p k = true.
Proof.
  intros Hr. rewrite has_record_spec, Hr. by apply bool_decide_eq_true.
Qed.

Lemma has_record_None `{Countable K} (sel : entity_params → option (gmap K value))
    (p : entity_params) (k : K) :
  record sel p k = None → has_record sel p k = false.
Proof.
  intros Hr. rewrite has_record_spec, Hr. apply bool_decide_eq_false.
  by intros [? ?].
Qed.

Ltac store_lookup Hp Hr :=
  unfold getitem, getfield, reraise_KeyError; rewrite Hp; simpl;
  unfold record in Hr;
  match type of Hr with
  | context [?sel ?p] =>
      destruct (sel p) as [t|]; simpl in Hr; [|discriminate]; simpl;
      rewrite Hr; simpl
  end.

Section accessor_facts.
Context (self : DataHandler) (entity_id parameter : string)
        (p : entity_params).
Hypothesis Hp : params self !! entity_id = Some p.

Lemma check_cnf_record v :
  record configuration p parameter = Some v →
  check_cnf self entity_id parameter = surface v.
Proof.
  intros Hr. unfold check_cnf. store_lookup Hp Hr. by destruct v.
Qed.

Lemma get_const_record v :
  record constant p parameter = Some v →
  get_const self entity_id parameter = surface v.
Proof.
  intros Hr. unfold get_const. store_lookup Hp Hr. by destruct v.
Qed.

Lemma get_const_fxe_record flow v :
  record constant_fxe p (parameter, flow) = Some v →
  get_const_fxe self entity_id parameter flow = surface v.
Proof.
  intros Hr. unfold get_const_fxe. store_lookup Hp Hr. by destruct v.
Qed.

Lemma get_annual_record year v :
  record annual p (parameter, year) = Some v →
  get_annual self entity_id parameter year = surface v.
Proof.
  intros Hr. unfold get_annual. store_lookup Hp Hr. by destruct v.
Qed.

Lemma get_annual_fxe_record flow year v :
  record annual_fxe p (parameter, flow, year) = Some v →
  get_annual_fxe self entity_id parameter flow year = surface v.
Proof.
  intros Hr. unfold get_annual_fxe. store_lookup Hp Hr. by destruct v.
Qed.

Lemma get_resolve year trigger_error :
  get self entity_id parameter year trigger_error
  = resolve (record annual p (parameter, year))
      (record constant p parameter) trigger_error
      (KeyError ["Parameter"; parameter; "not found for"; entity_id]).
Proof.
  unfold get. unfold getitem at 1. rewrite Hp. simpl.
  destruct (record annual p (parameter, year)) as [va|] eqn:Ha.
  - rewrite (has_record_Some _ _ _ _ Ha), (get_annual_record _ _ Ha).
    destruct va as [q| |s]; simpl; [done| |done].
    destruct (record constant p parameter) as [vc|] eqn:Hc.
    + rewrite (has_record_Some _ _ _ _ Hc), (get_const_record _ Hc).
      by destruct vc.
    + by rewrite (has_record_None _ _ _ Hc).
  - rewrite (has_record_None _ _ _ Ha). simpl.
    destruct (record constant p parameter) as [vc|] eqn:Hc.
    + rewrite (has_record_Some _ _ _ _ Hc), (get_const_record _ Hc).
      by destruct vc.
    + rewrite (has_record_None _ _ _ Hc). simpl. by destruct trigger_error.
Qed.

Lemma get_fxe_resolve flow year trigger_error :
  get_fxe self entity_id parameter flow year trigger_error
  = resolve (record annual_fxe p (parameter, flow, year))
      (record constant_fxe p (parameter, flow)) trigger_error
      (KeyError ["Parameter"; parameter; "not found for"; entity_id;
                 "and"; flow]).
Proof.
  unfold get_fxe. unfold getitem at 1. rewrite Hp. simpl.
  destruct (record annual_fxe p (parameter, flow, year)) as [va|] eqn:Ha.
  - rewrite (has_record_Some _ _ _ _ Ha), (get_annual_fxe_record _ _ _ Ha).
    destruct va as [q| |s]; simpl; [done| |done].
    destruct (record constant_fxe p (parameter, flow)) as [vc|] eqn:Hc.
    + rewrite (has_record_Some _ _ _ _ Hc), (get_const_fxe_record _ _ Hc).
      by destruct vc.
    + by rewrite (has_record_None _ _ _ Hc).
  - rewrite (has_record_None _ _ _ Ha). simpl.
    destruct (record constant_fxe p (parameter, flow)) as [vc|] eqn:Hc.
    + rewrite (has_record_Some _ _ _ _ Hc), (get_const_fxe_record _ _ Hc).
      by destruct vc.
    + rewrite (has_record_None _ _ _ Hc). simpl. by destruct trigger_error.
Qed.

End accessor_facts.

(** An entity that the store does not know makes every accessor raise a
    [KeyError], whatever the strictness flag. *)
Lemma get_unknown_entity self entity_id parameter year trigger_error :
  params self !! entity_id = None →
  get self entity_id parameter year trigger_error = Raise (KeyError [entity_id]).
Proof. intros Hp. unfold get, getitem. by rewrite Hp. Qed.

Lemma get_fxe_unknown_entity self entity_id parameter flow year trigger_error :
  params self !! entity_id = None →
  get_fxe self entity_id parameter flow year trigger_error
  = Raise (KeyError [entity_id]).
Proof. intros Hp. unfold get_fxe, getitem. by rewrite Hp. Qed.

(** ** Precedence of annual over constant records *)

Example get_annual_number :
  get (Samples.pv_store (VNum 0.3) (VNum 0.5)) "conv_elec_pv" "efficiency" 2020
      false = Ok (Some 0.3%Q).
Proof. reflexivity. Qed.

Example get_other_year :
  get (Samples.pv_store (VNum 0.3) (VNum 0.5)) "conv_elec_pv" "efficiency" 2021
      true = Ok (Some 0.5%Q).
Proof. reflexivity. Qed.

Example get_strict_missing :
  get (Samples.pv_store VNaN (VNum 0.5)) "conv_elec_pv" "lifetime" 2021 true
  = Raise (KeyError ["Parameter"; "lifetime"; "not found for"; "conv_elec_pv"]).
Proof. reflexivity. Qed.

(** C1, as stated, fails: with an empty ([nan]) annual cell and a constant of
    0.5 for the same parameter, both records are present, the annual record
    surfaces as [None], and [get] answers with the constant 0.5. *)
Lemma get_precedence_fails_on_nan_annual :
  params (Samples.pv_store VNaN (VNum 0.5)) !! "conv_elec_pv"
    = Some (Samples.pv VNaN (VNum 0.5))
  ∧ record annual (Samples.pv VNaN (VNum 0.5)) ("efficiency", 2020%Z) = Some VNaN
  ∧ record constant (Samples.pv VNaN (VNum 0.5)) "efficiency" = Some (VNum 0.5)
  ∧ get_annual (Samples.pv_store VNaN (VNum 0.5)) "conv_elec_pv" "efficiency" 2020
    = Ok None
  ∧ get (Samples.pv_store VNaN (VNum 0.5)) "conv_elec_pv" "efficiency" 2020 false
    = Ok (Some 0.5%Q).
Proof. repeat split; reflexivity. Qed.

(** C1 (amended): when the store holds an annual record keyed (parameter,
    year) whose value is a number, and a constant record keyed (parameter)
    for the same entity, [get] returns the number of the annual record,
    whatever the constant record holds. *)
Theorem get_prefers_numeric_annual (self : DataHandler)
    (entity_id parameter : string) (year : Z) (p : entity_params)
    (q : Q) (vc : value) (trigger_error : bool) :
  params self !! entity_id = Some p →
  record annual p (parameter, year) = Some (VNum q) →
  record constant p parameter = Some vc →
  get self entity_id parameter year trigger_error = Ok (Some q).
Proof.
  intros Hp Ha Hc. by rewrite (get_resolve _ _ _ _ Hp), Ha.
Qed.

Lemma get_prefers_numeric_annual_witness :
  get (Samples.pv_store (VNum 0.3) (VNum 0.5)) "conv_elec_pv" "efficiency" 2020
      false = Ok (Some 0.3%Q).
Proof.
  apply (get_prefers_numeric_annual _ _ _ _ (Samples.pv (VNum 0.3) (VNum 0.5))
           _ (VNum 0.5)); reflexivity.
Defined.

(** C2: an annual record that holds [nan] does not hide a numeric constant:
    [get] returns the constant, and [get_fxe] does the same with the per-flow
    tables. *)
Theorem get_nan_annual_falls_through (self : DataHandler)
    (entity_id parameter : string) (p : entity_params) (trigger_error : bool) :
  params self !! entity_id = Some p →
  (∀ (year : Z) (v : Q),
     record annual p (parameter, year) = Some VNaN →
     record constant p parameter = Some (VNum v) →
     get self entity_id parameter year trigger_error = Ok (Some v))
  ∧ (∀ (flow : string) (year : Z) (v : Q),
     record annual_fxe p (parameter, flow, year) = Some VNaN →
     record constant_fxe p (parameter, flow) = Some (VNum v) →
     get_fxe self entity_id parameter flow year trigger_error = Ok (Some v)).
Proof.
  intros Hp. split.
  - intros year v Ha Hc. by rewrite (get_resolve _ _ _ _ Hp), Ha, Hc.
  - intros flow year v Ha Hc. by rewrite (get_fxe_resolve _ _ _ _ Hp), Ha, Hc.
Qed.

Lemma get_nan_annual_falls_through_witness :
  get (Samples.pv_store VNaN (VNum 0.5)) "conv_elec_pv" "efficiency" 2020 false
    = Ok (Some 0.5%Q)
  ∧ get_fxe (Samples.pv_store VNaN (VNum 0.5)) "conv_elec_pv" "efficiency" "elec"
      2020 false = Ok (Some 0.5%Q).
Proof.
  destruct (get_nan_annual_falls_through (Samples.pv_store VNaN (VNum 0.5))
              "conv_elec_pv" "efficiency" (Samples.pv VNaN (VNum 0.5)) false
              eq_refl) as [Hget Hfxe].
  split; [apply Hget | apply Hfxe]; reflexivity.
Defined.

(** ** Strict and non-strict access *)

(** C3, as stated, fails for an entity that the store does not know: the
    combination is in neither table, and the non-strict [get] and [get_fxe]
    raise a [KeyError] instead of returning [None]. *)
Lemma get_nonstrict_raises_on_unknown_entity :
  get Samples.empty_store "conv_elec_pv" "efficiency" 2020 false
    = Raise (KeyError ["conv_elec_pv"])
  ∧ get_fxe Samples.empty_store "conv_elec_pv" "efficiency" "elec" 2020 false
    = Raise (KeyError ["conv_elec_pv"]).
Proof. split; reflexivity. Qed.

Lemma resolve_KeyError first second trigger_error args :
  is_KeyError (resolve first second trigger_error (KeyError args))
  ↔ trigger_error = true ∧ first = None ∧ second = None.
Proof.
  destruct first as [[| |]|], second as [[| |]|], trigger_error; simpl;
    intuition congruence.
Qed.

(** C3 (amended): for every entity that has an entry in the store: the strict
    [get] raises a not-found error exactly when neither the annual nor the
    constant table has a record for the combination, the error being the one
    that names the parameter and the entity, and the non-strict [get] returns
    [None] for such a combination; the same holds for [get_fxe] with the
    per-flow tables. *)
Theorem strict_get_raises_iff_no_record (self : DataHandler)
    (entity_id parameter : string) (p : entity_params) :
  params self !! entity_id = Some p →
  (∀ year : Z,
     (is_KeyError (get self entity_id parameter year true)
      ↔ record annual p (parameter, year) = None
        ∧ record constant p parameter = None)
     ∧ (record annual p (parameter, year) = None →
        record constant p parameter = None →
        get self entity_id parameter year true
        = Raise (KeyError ["Parameter"; parameter; "not found for"; entity_id])
        ∧ get self entity_id parameter year false = Ok None))
  ∧ (∀ (flow : string) (year : Z),
     (is_KeyError (get_fxe self entity_id parameter flow year true)
      ↔ record annual_fxe p (parameter, flow, year) = None
        ∧ record constant_fxe p (parameter, flow) = None)
     ∧ (record annual_fxe p (parameter, flow, year) = None →
        record constant_fxe p (parameter, flow) = None →
        get_fxe self entity_id parameter flow year true
        = Raise (KeyError ["Parameter"; parameter; "not found for"; entity_id;
                           "and"; flow])
        ∧ get_fxe self entity_id parameter flow year false = Ok None)).
Proof.
  intros Hp. split.
  - intros year. rewrite !(get_resolve _ _ _ _ Hp). split.
    + rewrite resolve_KeyError. tauto.
    + by intros -> ->.
  - intros flow year. rewrite !(get_fxe_resolve _ _ _ _ Hp). split.
    + rewrite resolve_KeyError. tauto.
    + by intros -> ->.
Qed.

Lemma strict_get_raises_iff_no_record_witness :
  is_KeyError (get (Samples.pv_store VNaN (VNum 0.5)) "conv_elec_pv" "lifetime"
                 2020 true)
  ∧ get (Samples.pv_store VNaN (VNum 0.5)) "conv_elec_pv" "lifetime" 2020 false
    = Ok None
  ∧ get_fxe (Samples.pv_store VNaN (VNum 0.5)) "conv_elec_pv" "lifetime" "elec"
      2020 false = Ok None.
Proof.
  destruct (strict_get_raises_iff_no_record (Samples.pv_store VNaN (VNum 0.5))
              "conv_elec_pv" "lifetime" (Samples.pv VNaN (VNum 0.5)) eq_refl)
    as [Hget Hfxe].
  destruct (Hget 2020%Z) as [Hiff Hmiss].
  destruct (Hfxe "elec" 2020%Z) as [_ Hmiss'].
  split; [|split].
  - apply Hiff. split; reflexivity.
  - apply Hmiss; reflexivity.
  - apply Hmiss'; reflexivity.
Defined.

(** ** Empty cells *)

(** C4, as stated, fails for [get]: with an empty ([nan]) annual cell and a
    constant of 0 for the same parameter, the non-strict [get] returns the
    number 0 and not [None]. *)
Lemma get_nan_annual_returns_zero_constant :
  record annual (Samples.pv VNaN (VNum 0)) ("efficiency", 2020%Z) = Some VNaN
  ∧ get (Samples.pv_store VNaN (VNum 0)) "conv_elec_pv" "efficiency" 2020 false
    = Ok (Some 0%Q)
  ∧ get (Samples.pv_store VNaN (VNum 0)) "conv_elec_pv" "efficiency" 2020 false
    ≠ Ok None.
Proof. repeat split; try reflexivity. discriminate. Qed.

(** C4 (amended): for a record stored as [nan], [get_const] and [get_annual]
    return [None] and do not raise; the non-strict [get] returns [None] for
    it when the other of the two tables has no record for the combination or
    holds [nan] as well. *)
Theorem nan_records_surface_as_absence (self : DataHandler)
    (entity_id parameter : string) (p : entity_params) :
  params self !! entity_id = Some p →
  (record constant p parameter = Some VNaN →
   get_const self entity_id parameter = Ok None)
  ∧ (∀ year : Z,
       record annual p (parameter, year) = Some VNaN →
       get_annual self entity_id parameter year = Ok None)
  ∧ (∀ year : Z,
       record annual p (parameter, year) = Some VNaN →
       record constant p parameter = None
       ∨ record constant p parameter = Some VNaN →
       get self entity_id parameter year false = Ok None)
  ∧ (∀ year : Z,
       record constant p parameter = Some VNaN →
       record annual p (parameter, year) = None
       ∨ record annual p (parameter, year) = Some VNaN →
       get self entity_id parameter year false = Ok None).
Proof.
  intros Hp. repeat split.
  - intros Hc. by rewrite (get_const_record _ _ _ _ Hp _ Hc).
  - intros year Ha. by rewrite (get_annual_record _ _ _ _ Hp _ _ Ha).
  - intros year Ha [Hc|Hc]; by rewrite (get_resolve _ _ _ _ Hp), Ha, Hc.
  - intros year Hc [Ha|Ha]; by rewrite (get_resolve _ _ _ _ Hp), Ha, Hc.
Qed.

Lemma nan_records_surface_as_absence_witness :
  get_const (Samples.pv_store VNaN VNaN) "conv_elec_pv" "efficiency" = Ok None
  ∧ get_annual (Samples.pv_store VNaN VNaN) "conv_elec_pv" "efficiency" 2020
    = Ok None
  ∧ get (Samples.pv_store VNaN VNaN) "conv_elec_pv" "efficiency" 2020 false
    = Ok None
  ∧ get (Samples.pv_store VNaN VNaN) "conv_elec_pv" "efficiency" 2021 false
    = Ok None.
Proof.
  destruct (nan_records_surface_as_absence (Samples.pv_store VNaN VNaN)
              "conv_elec_pv" "efficiency" (Samples.pv VNaN VNaN) eq_refl)
    as (Hc & Ha & Hg1 & Hg2).
  split; [|split; [|split]].
  - apply Hc; reflexivity.
  - apply Ha; reflexivity.
  - apply Hg1; [reflexivity | right; reflexivity].
  - apply Hg2; [reflexivity | left; reflexivity].
Defined.

(** ** Configuration flags *)




(** ** Flow/entity dictionaries *)

Lemma connected_cons p f' tuples f :
  connected ((p, f') :: tuples) f
  = if decide (f' = f) then p :: connected tuples f else connected tuples f.
Proof.
  unfold connected. rewrite filter_cons. simpl. by case_decide.
Qed.

Lemma columns_dict_lookup (flows : list string) (d : gmap string (list string)) f :
  foldl (λ d f, <[f := []]> d) d flows !! f
  = if decide (f ∈ flows) then Some [] else d !! f.
Proof.
  revert d. induction flows as [|g flows IH]; intros d.
  - rewrite decide_False; [done | apply not_elem_of_nil].
  - cbn [foldl]. rewrite IH. destruct (decide (f ∈ flows)) as [Hin|Hin].
    + rewrite decide_True; [done | by right].
    + destruct (decide (g = f)) as [->|Hne].
      * rewrite decide_True; [|by left]. by rewrite lookup_insert_eq.
      * rewrite decide_False; [by rewrite lookup_insert_ne|].
        intros [?|?]%elem_of_cons; congruence.
Qed.

(** The dictionary after the loop over the index tuples: every key gets the
    connected entities appended, in order, to what it held before. *)
Lemma setdefault_loop_lookup tuples (d : gmap string (list string)) f :
  foldl (λ d '(p, f), setdefault_append d f p) d tuples !! f
  = match d !! f, connected tuples f with
    | Some l0, c => Some (l0 ++ c)
    | None, [] => None
    | None, c => Some c
    end.
Proof.
  revert d. induction tuples as [|[p f'] tuples IH]; intros d; simpl.
  - unfold connected. simpl. destruct (d !! f); [by rewrite app_nil_r | done].
  - rewrite IH, connected_cons. unfold setdefault_append.
    destruct (decide (f' = f)) as [->|Hne].
    + rewrite lookup_insert_eq.
      destruct (d !! f) as [l0|]; simpl; [by rewrite <- app_assoc | done].
    + by rewrite lookup_insert_ne.
Qed.

(** What [get_flow_entity_dict] holds under each key. *)
Lemma get_flow_entity_dict_lookup io_df by_entity f :
  get_flow_entity_dict io_df by_entity !! f
  = match connected (index_tuples io_df by_entity) f with
    | [] => None
    | c => Some c
    end.
Proof.
  unfold get_flow_entity_dict. fold (index_tuples io_df by_entity).
  rewrite map_lookup_filter, setdefault_loop_lookup, columns_dict_lookup.
  rewrite lookup_empty.
  destruct (connected (index_tuples io_df by_entity) f) as [|e c];
    case_decide; simpl; try done;
    by rewrite option_guard_decide; case_decide.
Qed.

Lemma elem_of_connected tuples f p :
  p ∈ connected tuples f ↔ (p, f) ∈ tuples.
Proof.
  unfold connected. rewrite list_elem_of_fmap. split.
  - intros ([p' f'] & -> & [Hf Hin]%list_elem_of_filter). simpl in *. by subst.
  - intros Hin. exists (p, f). split; [done|]. by apply list_elem_of_filter.
Qed.

Lemma flow_entity_dict_nonempty io_df by_entity f l :
  get_flow_entity_dict io_df by_entity !! f = Some l → ∃ e, e ∈ l.
Proof.
  rewrite get_flow_entity_dict_lookup.
  destruct (connected _ f) as [|e c]; [done|]. intros [= <-]. exists e. by left.
Qed.

Example flow_entity_dict_sample :
  get_flow_entity_dict
    {| df_index := ["conv_elec_pv"; "dem_elec"];
       df_columns := ["elec"; "sun"; "heat"];
       df_values := [[VNaN; VNum 1; VNaN]; [VNum 1; VNaN; VNaN]] |} false
  = {[ "sun" := ["conv_elec_pv"]; "elec" := ["dem_elec"] ]}.
Proof. by vm_compute. Qed.

(** C6: in the dictionary returned by [get_flow_entity_dict], with either
    value of [by_entity], every key maps to a non-empty list, and a key that
    no index tuple of the table connects to anything is not in the
    dictionary. *)
Theorem flow_entity_dict_has_no_empty_flow (io_df : DataFrame)
    (by_entity : bool) :
  (∀ (f : string) (l : list string),
     get_flow_entity_dict io_df by_entity !! f = Some l → l ≠ [])
  ∧ (∀ f : string,
       (∀ p : string, (p, f) ∉ index_tuples io_df by_entity) →
       get_flow_entity_dict io_df by_entity !! f = None).
Proof.
  split.
  - intros f l. rewrite get_flow_entity_dict_lookup.
    destruct (connected _ f); [done|]. by intros [= <-].
  - intros f Hnone. rewrite get_flow_entity_dict_lookup.
    destruct (connected _ f) as [|p c] eqn:Hc; [done|].
    destruct (Hnone p). apply elem_of_connected. rewrite Hc. by left.
Qed.

Lemma flow_entity_dict_has_no_empty_flow_witness :
  get_flow_entity_dict System.FiE_df false !! "heat" = None
  ∧ get_flow_entity_dict System.FiE_df false !! "sun" = Some ["conv_elec_pv"].
Proof.
  split; [|reflexivity].
  apply (flow_entity_dict_has_no_empty_flow System.FiE_df false).
  intros p Hin. apply list_elem_of_In in Hin. vm_compute in Hin.
  destruct Hin as [[=]|[[=]|[]]].
Defined.

(** ** Merging two dictionaries *)

Section merge.
Context {A : Type}.
Implicit Types (d out : gmap string (list A)).

(** One pass of the inner loop: every key of [out0] gets the list that [d]
    holds for it appended; no key of [d] is missing from [out0]. *)
Lemma extend_items_lookup d out0 :
  dom d ⊆ dom out0 →
  ∃ out, extend_items d (Ok out0) = Ok out
    ∧ ∀ k, out !! k = (λ l, l ++ default [] (d !! k)) <$> out0 !! k.
Proof.
  unfold extend_items.
  apply (map_fold_weak_ind (λ r m,
    dom m ⊆ dom out0 →
    ∃ out, r = Ok out
      ∧ ∀ k, out !! k = (λ l, l ++ default [] (m !! k)) <$> out0 !! k)).
  - intros _. exists out0. split; [done|]. intros k.
    rewrite lookup_empty. simpl. destruct (out0 !! k); simpl; [|done].
    by rewrite app_nil_r.
  - intros i x m r Hi IH Hdom.
    destruct IH as (out & -> & Hout).
    { intros k Hk. apply Hdom. rewrite dom_insert. set_solver. }
    assert (is_Some (out0 !! i)) as [l0 Hl0].
    { apply elem_of_dom, Hdom. rewrite dom_insert. set_solver. }
    simpl. unfold getitem. rewrite Hout, Hl0, Hi. simpl.
    eexists. split; [done|]. intros k.
    destruct (decide (i = k)) as [<-|Hne].
    + by rewrite !lookup_insert_eq, Hl0, app_nil_r.
    + by rewrite !lookup_insert_ne, Hout.
Qed.

(** [merge_dicts] never raises, and holds under every key the lists of the
    two inputs, the first one before the second one. *)
Lemma merge_dicts_lookup dict1 dict2 :
  ∃ out, merge_dicts dict1 dict2 = Ok out
    ∧ ∀ k, out !! k = union_with (λ l1 l2, Some (l1 ++ l2))
                        (dict1 !! k) (dict2 !! k).
Proof.
  unfold merge_dicts. simpl.
  destruct (extend_items_lookup dict1
              (gset_to_gmap [] (dom dict1 ∪ dom dict2))) as (out1 & -> & H1).
  { rewrite dom_gset_to_gmap. set_solver. }
  destruct (extend_items_lookup dict2 out1) as (out2 & -> & H2).
  { intros k Hk. apply elem_of_dom. rewrite H1, lookup_gset_to_gmap.
    rewrite option_guard_True; [by eexists | set_solver]. }
  exists out2. split; [done|]. intros k.
  rewrite H2, H1, lookup_gset_to_gmap.
  destruct (dict1 !! k) as [l1|] eqn:E1, (dict2 !! k) as [l2|] eqn:E2;
    simpl.
  - rewrite option_guard_True; [done|].
    apply elem_of_union_l, elem_of_dom. by eexists.
  - rewrite option_guard_True; [simpl; by rewrite app_nil_r|].
    apply elem_of_union_l, elem_of_dom. by eexists.
  - rewrite option_guard_True; [done|].
    apply elem_of_union_r, elem_of_dom. by eexists.
  - rewrite option_guard_False; [done|].
    rewrite elem_of_union, !elem_of_dom, E1, E2. by intros [[? ?]|[? ?]].
Qed.
End merge.

Example merge_dicts_sample :
  merge_dicts (A:=string)
    {[ "sun" := ["conv_elec_pv"]; "elec" := ["dem_elec"] ]}
    {[ "elec" := ["conv_elec_pv"; "dem_elec"]; "heat" := ["conv_heat"] ]}
  = Ok {[ "sun" := ["conv_elec_pv"];
          "elec" := ["dem_elec"; "conv_elec_pv"; "dem_elec"];
          "heat" := ["conv_heat"] ]}.
Proof. by vm_compute. Qed.

(** C7: [merge_dicts] returns a dictionary; when the two inputs share no key
    it is their union; under a key present in both inputs it holds the first
    list followed by the second one, so that its length is the sum of the two
    lengths and its members are exactly the members of the two lists. Whether
    or not other keys are shared, the keys of the result are those of the two
    inputs, a key of one input only keeps the list of that input, and an
    entry is listed under a key of the result exactly when one of the inputs
    lists it under that key. *)
Theorem merge_dicts_keeps_both {A : Type} (dict1 dict2 : gmap string (list A)) :
  ∃ out : gmap string (list A),
    merge_dicts dict1 dict2 = Ok out
    ∧ (dom dict1 ## dom dict2 → out = dict1 ∪ dict2)
    ∧ (∀ (k : string) (l1 l2 : list A),
         dict1 !! k = Some l1 → dict2 !! k = Some l2 →
         ∃ l, out !! k = Some l
           ∧ l = l1 ++ l2
           ∧ length l = length l1 + length l2
           ∧ ∀ x, x ∈ l ↔ x ∈ l1 ∨ x ∈ l2)
    ∧ dom out = dom dict1 ∪ dom dict2
    ∧ (∀ (k : string) (l1 : list A),
         dict1 !! k = Some l1 → dict2 !! k = None → out !! k = Some l1)
    ∧ (∀ (k : string) (l2 : list A),
         dict1 !! k = None → dict2 !! k = Some l2 → out !! k = Some l2)
    ∧ (∀ (k : string) (x : A),
         listed out k x ↔ listed dict1 k x ∨ listed dict2 k x).
Proof.
  destruct (merge_dicts_lookup dict1 dict2) as (out & Hout & Hlookup).
  exists out. split; [done|]. split_and!.
  - intros Hdisj. apply map_eq. intros k. rewrite Hlookup.
    destruct (dict1 !! k) as [l1|] eqn:E1, (dict2 !! k) as [l2|] eqn:E2.
    + exfalso. apply (Hdisj k); apply elem_of_dom; by eexists.
    + symmetry. apply lookup_union_Some_l. done.
    + symmetry. simpl. rewrite lookup_union_r; done.
    + symmetry. simpl. by apply lookup_union_None.
  - intros k l1 l2 E1 E2. exists (l1 ++ l2).
    rewrite Hlookup, E1, E2. split; [done|]. split; [done|]. split.
    + apply length_app.
    + intros x. apply elem_of_app.
  - apply set_eq. intros k.
    rewrite elem_of_union, !elem_of_dom, Hlookup.
    destruct (dict1 !! k) as [l1|], (dict2 !! k) as [l2|]; simpl;
      split; eauto; intros [[? ?]|[? ?]]; done.
  - intros k l1 E1 E2. by rewrite Hlookup, E1, E2.
  - intros k l2 E1 E2. by rewrite Hlookup, E1, E2.
  - intros k x. unfold listed. rewrite Hlookup.
    destruct (dict1 !! k) as [l1|], (dict2 !! k) as [l2|]; simpl.
    + split.
      * intros (l & [= <-] & [?|?]%elem_of_app); eauto.
      * intros [(l & [= <-] & ?)|(l & [= <-] & ?)]; eexists;
          (split; [done|]); apply elem_of_app; auto.
    + split; [by eauto|]. by intros [?|(? & ? & ?)].
    + split; [by eauto|]. by intros [(? & ? & ?)|?].
    + split; [by intros (? & ? & ?)|]. by intros [(? & ? & ?)|(? & ? & ?)].
Qed.

Lemma merge_dicts_keeps_both_witness :
  ∃ out : gmap string (list string),
    merge_dicts {[ "sun" := ["conv_elec_pv"]; "elec" := ["dem_elec"] ]}
                {[ "elec" := ["conv_elec_pv"; "dem_elec"];
                   "heat" := ["conv_heat"] ]} = Ok out
    ∧ out !! "elec" = Some ["dem_elec"; "conv_elec_pv"; "dem_elec"]
    ∧ out !! "sun" = Some ["conv_elec_pv"]
    ∧ out !! "heat" = Some ["conv_heat"].
Proof.
  destruct (merge_dicts_keeps_both (A:=string)
              {[ "sun" := ["conv_elec_pv"]; "elec" := ["dem_elec"] ]}
              {[ "elec" := ["conv_elec_pv"; "dem_elec"];
                 "heat" := ["conv_heat"] ]})
    as (out & Hout & _ & Hboth & _ & Hleft & Hright & _).
  exists out. split; [exact Hout|]. split; [|split].
  - destruct (Hboth "elec" ["dem_elec"] ["conv_elec_pv"; "dem_elec"]
                eq_refl eq_refl) as (l & Hl & -> & _).
    exact Hl.
  - exact (Hleft "sun" ["conv_elec_pv"] eq_refl eq_refl).
  - exact (Hright "heat" ["conv_heat"] eq_refl eq_refl).
Defined.

(** ** Construction of the store *)

Lemma bind_Ok {A B} (f : A → result B) (r : result A) (b : B) :
  r ≫= f = Ok b ↔ ∃ a, r = Ok a ∧ f a = Ok b.
Proof.
  destruct r as [a|e]; simpl.
  - split; [by exists a | by intros (? & [= <-] & ?)].
  - split; [done | by intros (? & ? & ?)].
Qed.

Lemma elem_of_unique x l : x ∈ unique l → x ∈ l.
Proof.
  induction l as [|y l IH]; simpl; [done|].
  intros [->|[_ Hin]%list_elem_of_filter]%elem_of_cons; [by left|].
  right. by apply IH.
Qed.

Lemma set_data_type_None data_type entity_id entity_df p :
  set_data_type data_type entity_id entity_df p = None → ¬ recognised data_type.
Proof.
  unfold set_data_type, recognised.
  repeat case_decide; try discriminate. intros _.
  rewrite !elem_of_cons, elem_of_nil. tauto.
Qed.

Section construction.
Context (excel_file : ExcelFile).

(** Reading the tables of one entity either goes through, or stops at a
    data type of the sheet that is not recognised. *)
Lemma read_entity_outcome group entity_id sheet_df :
  (∃ p, read_entity group entity_id sheet_df = Ok p)
  ∨ (invalid_type_error (read_entity group entity_id sheet_df)
     ∧ ¬ Forall (λ r, recognised (row_Type r)) (rows sheet_df)).
Proof.
  unfold read_entity.
  assert (∀ x, x ∈ unique (row_Type <$> rows sheet_df) →
               x ∈ row_Type <$> rows sheet_df) as Hsub
    by (intros x; apply elem_of_unique).
  revert Hsub. generalize (unique (row_Type <$> rows sheet_df)).
  generalize no_params.
  intros p0 types. revert p0.
  induction types as [|dt types IH]; intros p0 Hsub; simpl.
  - left. by exists p0.
  - destruct (set_data_type dt entity_id _ p0) as [p'|] eqn:Hset.
    + apply IH. intros x Hx. apply Hsub. by right.
    + right. split.
      * exists dt, group, entity_id.
        clear. induction types as [|? ? IH]; [done|]. simpl. apply IH.
      * intros Hall. apply set_data_type_None in Hset. apply Hset.
        assert (dt ∈ row_Type <$> rows sheet_df) as Hin
          by (apply Hsub; by left).
        apply list_elem_of_fmap in Hin as (r & -> & Hr).
        rewrite Forall_forall in Hall. by apply Hall.
Qed.

Lemma sheet_loop_Raise group sheet_df e cols :
  foldl (read_column group sheet_df) (Raise e) cols = Raise e.
Proof. induction cols as [|? ? IH]; [done|]. simpl. apply IH. Qed.

(** The loop over the columns of one sheet: unless a data type of the
    sheet is not recognised, it stops at the first column whose identifier
    is already in the store, and otherwise adds every column. *)
Lemma read_sheet_outcome group sheet_df cols params :
  let r := foldl (read_column group sheet_df) (Ok params) cols in
  (invalid_type_error r
   ∧ ¬ Forall (λ r, recognised (row_Type r)) (rows sheet_df))
  ∨ match first_repeat (dom params) ((λ e, (group, e)) <$> cols) with
    | Some (g, e) => r = Raise (duplicate_id_error e g)
    | None => ∃ params', r = Ok params'
                ∧ dom params' = list_to_set cols ∪ dom params
    end.
Proof.
  revert params. induction cols as [|e cols IH]; intros params; simpl.
  - right. exists params. split; [done | set_solver].
  - destruct (decide (e ∈ dom params)) as [Hin|Hin].
    + right. rewrite bool_decide_eq_true_2 by by apply elem_of_dom.
      apply sheet_loop_Raise.
    + rewrite bool_decide_eq_false_2 by by rewrite <- elem_of_dom.
      destruct (read_entity_outcome group e sheet_df)
        as [[p Hp]|[Hinv Hrows]]; rewrite ?Hp; simpl.
      * specialize (IH (<[e := p]> params)). simpl in IH.
        rewrite dom_insert_L in IH.
        destruct IH as [IH|IH]; [by left|right].
        destruct (first_repeat _ _) as [[g' e']|]; [done|].
        destruct IH as (params' & ? & Hdom). exists params'.
        split; [done|]. rewrite Hdom. set_solver.
      * left. split; [|done].
        destruct Hinv as (dt & g' & e' & ->). simpl.
        rewrite sheet_loop_Raise. by exists dt, g', e'.
Qed.

Lemma workbook_loop_Raise e groups :
  foldl (read_group excel_file) (Raise e) groups = Raise e.
Proof. induction groups as [|? ? IH]; [done|]. simpl. apply IH. Qed.

Lemma first_repeat_app seen l k :
  first_repeat seen (l ++ k)
  = match first_repeat seen l with
    | Some x => Some x
    | None => first_repeat (list_to_set l.*2 ∪ seen) k
    end.
Proof.
  revert seen. induction l as [|[g e] l IH]; intros seen; simpl.
  - by rewrite (left_id_L ∅ (∪)).
  - case_decide; [done|]. rewrite IH.
    destruct (first_repeat _ l); [done|]. f_equal. set_solver.
Qed.

Lemma recognised_types_cons g groups :
  recognised_types excel_file (g :: groups) →
  recognised_types excel_file groups.
Proof.
  intros Hall g' Hg'. apply Hall. unfold parameter_sheets_of in *.
  rewrite filter_cons. case_decide; [by right | done].
Qed.

(** The loop over the sheets. *)
Lemma workbook_loop_outcome groups self :
  let r := foldl (read_group excel_file) (Ok self) groups in
  (invalid_type_error r ∧ ¬ recognised_types excel_file groups)
  ∨ match first_repeat (dom (params self)) (columns_of excel_file groups) with
    | Some (g, e) => r = Raise (duplicate_id_error e g)
    | None => ∃ self', r = Ok self'
    end.
Proof.
  revert self. induction groups as [|g groups IH]; intros self; simpl.
  - right. by exists self.
  - unfold columns_of, parameter_sheets_of. rewrite filter_cons.
    destruct (decide (g ∉ ["FiE"; "FoE"])) as [Hg|Hg].
    + rewrite bool_decide_eq_false_2 by done.
      rewrite bind_cons, first_repeat_app.
      destruct (read_sheet_outcome g (read_excel excel_file g)
                  (entity_columns (read_excel excel_file g)) (params self))
        as [[Hinv Hrows]|Hout].
      * left. fold (read_sheet g (read_excel excel_file g) (params self))
          in Hinv.
        destruct Hinv as (dt & g' & e' & ->). simpl.
        rewrite workbook_loop_Raise. split; [by exists dt, g', e'|].
        intros Hall. apply Hrows, Hall. unfold parameter_sheets_of.
        rewrite filter_cons, decide_True by done. by left.
      * fold (read_sheet g (read_excel excel_file g) (params self)) in Hout.
        destruct (first_repeat (dom (params self)) _) as [[g' e']|].
        { right. rewrite Hout. simpl. apply workbook_loop_Raise. }
        destruct Hout as (params' & -> & Hdom). simpl.
        specialize (IH {| fxe := fxe self; params := params' |}).
        simpl in IH. destruct IH as [[Hinv Hrec]|IH].
        { left. split; [done|]. intros Hall. apply Hrec.
          by apply recognised_types_cons in Hall. }
        right. rewrite Hdom in IH.
        replace (list_to_set
                   ((λ e, (g, e)) <$> entity_columns (read_excel excel_file g)).*2
                 ∪ dom (params self))
          with (list_to_set (C:=gset string)
                  (entity_columns (read_excel excel_file g))
                ∪ dom (params self)); [done|].
        f_equal. f_equal. rewrite <- list_fmap_compose.
        symmetry. apply list_fmap_id.
    + apply dec_stable in Hg. rewrite bool_decide_eq_true_2 by done.
      specialize (IH {| fxe := <[g := read_excel_index_col0 excel_file g]>
                                 (fxe self);
                        params := params self |}).
      simpl in IH. destruct IH as [[Hinv Hrec]|IH]; [|by right].
      left. split; [done|]. intros Hall. apply Hrec.
      by apply recognised_types_cons in Hall.
Qed.

End construction.

Lemma first_repeat_Some seen cols g e :
  first_repeat seen cols = Some (g, e) →
  ∃ before after,
    cols = before ++ (g, e) :: after
    ∧ NoDup before.*2
    ∧ (∀ x, x ∈ before.*2 → x ∉ seen)
    ∧ (e ∈ seen ∨ e ∈ before.*2).
Proof.
  revert seen. induction cols as [|[g' e'] cols IH]; intros seen; simpl;
    [done|].
  case_decide as Hin.
  - intros [= -> ->]. exists [], cols. simpl.
    split; [done|]. split; [constructor|]. split; [|by left].
    by intros x ?%elem_of_nil.
  - intros (before & after & -> & Hnodup & Hseen & He)%IH.
    exists ((g', e') :: before), after. simpl. split; [done|].
    split; [|split].
    + constructor; [|done]. intros Hin'. apply (Hseen _ Hin'). set_solver.
    + intros x [->|Hx]%elem_of_cons; [done|].
      intros Hx'. apply (Hseen _ Hx). set_solver.
    + destruct He as [[->%elem_of_singleton|He]%elem_of_union|He].
      * right. by left.
      * by left.
      * right. by right.
Qed.

Lemma first_repeat_None seen cols :
  first_repeat seen cols = None → NoDup cols.*2.
Proof.
  revert seen. induction cols as [|[g e] cols IH]; intros seen; simpl.
  - constructor.
  - case_decide as Hin; [done|]. intros Hnone. constructor; [|by eapply IH].
    clear IH. revert seen Hin Hnone.
    induction cols as [|[g' e'] cols IH]; intros seen Hin; simpl.
    + intros _ []%elem_of_nil.
    + case_decide as Hin'; [done|]. intros Hnone [->|He]%elem_of_cons.
      * apply Hin'. set_solver.
      * revert He. apply (IH ({[e']} ∪ seen)).
        -- set_solver.
        -- replace ({[e]} ∪ ({[e']} ∪ seen)) with ({[e']} ∪ ({[e]} ∪ seen))
             by set_solver.
           done.
Qed.

(** An identifier that heads a column in two parameter sheets occurs twice
    among the columns that the constructor walks through. *)
Lemma columns_of_repeat excel_file groups (i j : nat) g1 g2 entity_id :
  i < j →
  groups !! i = Some g1 → groups !! j = Some g2 →
  g1 ∉ ["FiE"; "FoE"] → g2 ∉ ["FiE"; "FoE"] →
  entity_id ∈ entity_columns (read_excel excel_file g1) →
  entity_id ∈ entity_columns (read_excel excel_file g2) →
  ¬ NoDup (columns_of excel_file groups).*2.
Proof.
  intros Hij Hi Hj Hg1 Hg2 He1 He2.
  rewrite <- (take_drop_middle groups i g1 Hi).
  assert (g2 ∈ drop (S i) groups) as Hin2.
  { apply list_elem_of_lookup. exists (j - S i).
    rewrite lookup_drop. rewrite <- Hj. f_equal. lia. }
  unfold columns_of, parameter_sheets_of.
  rewrite filter_app, filter_cons, decide_True by done.
  rewrite bind_app, bind_cons, !fmap_app.
  intros (_ & _ & Hnodup)%NoDup_app.
  apply NoDup_app in Hnodup as (_ & Hdisj & _).
  apply (Hdisj entity_id).
  - apply list_elem_of_fmap. exists (g1, entity_id). split; [done|].
    apply list_elem_of_fmap. by exists entity_id.
  - apply list_elem_of_fmap. exists (g2, entity_id). split; [done|].
    apply list_elem_of_bind. exists g2. split.
    + apply list_elem_of_fmap. by exists entity_id.
    + by apply list_elem_of_filter.
Qed.

Example duplicate_id_sample :
  DataHandler_init (Workbooks.workbook Workbooks.tech)
  = Raise (ValueError ["Found duplicate id"; "conv_elec_wind"; "in sheet";
                       "storage"]).
Proof. by vm_compute. Qed.

(** C8, as stated, fails: in this workbook the identifier [conv_elec_wind]
    heads a column of the sheets [tech] and [storage], and [tech] has a row of
    an unknown data type; the constructor stops at that row, on the first
    column of [tech], and the error it raises names neither the repeated
    identifier nor the duplication. *)
Lemma duplicate_id_hidden_by_invalid_type :
  "conv_elec_wind"
    ∈ entity_columns (read_excel (Workbooks.workbook Workbooks.tech_bad_type) "tech")
  ∧ "conv_elec_wind"
    ∈ entity_columns (read_excel (Workbooks.workbook Workbooks.tech_bad_type)
                        "storage")
  ∧ DataHandler_init (Workbooks.workbook Workbooks.tech_bad_type)
    = Raise (ValueError ["Invalid Data Type"; "yearly"; "in"; "tech";
                         "conv_elec_pv"]).
Proof.
  split; [|split].
  - compute_done.
  - compute_done.
  - by vm_compute.
Qed.

(** C8 (amended): the construction of the store from a workbook in which the
    same entity identifier heads a column of two different parameter sheets
    raises, so that no store is produced. When every row of the parameter
    sheets has a recognised data type, the error is the duplicate-id
    [ValueError], and it names the first column, in sheet order and then in
    column order, whose identifier was read before, with the sheet of that
    column; this is the given identifier when no other one is repeated. *)
Theorem duplicate_entity_aborts_construction (excel_file : ExcelFile)
    (i j : nat) (g1 g2 entity_id : string) :
  i < j →
  sheet_names excel_file !! i = Some g1 →
  sheet_names excel_file !! j = Some g2 →
  g1 ∉ ["FiE"; "FoE"] → g2 ∉ ["FiE"; "FoE"] →
  entity_id ∈ entity_columns (read_excel excel_file g1) →
  entity_id ∈ entity_columns (read_excel excel_file g2) →
  raises (DataHandler_init excel_file)
  ∧ (recognised_types excel_file (sheet_names excel_file) →
     ∃ before group dup after,
       parameter_columns excel_file = before ++ (group, dup) :: after
       ∧ NoDup before.*2
       ∧ dup ∈ before.*2
       ∧ DataHandler_init excel_file
         = Raise (ValueError ["Found duplicate id"; dup; "in sheet"; group])
       ∧ (NoDup (filter (λ x, x ≠ entity_id) (parameter_columns excel_file).*2) →
          dup = entity_id)).
Proof.
  intros Hij Hi Hj Hg1 Hg2 He1 He2.
  pose proof (columns_of_repeat excel_file _ i j g1 g2 entity_id
                Hij Hi Hj Hg1 Hg2 He1 He2) as Hrep.
  pose proof (workbook_loop_outcome excel_file (sheet_names excel_file)
                {| fxe := ∅; params := ∅ |}) as Hout.
  simpl in Hout. fold (DataHandler_init excel_file) in Hout.
  rewrite dom_empty_L in Hout.
  fold (parameter_columns excel_file) in Hout, Hrep.
  destruct (first_repeat ∅ (parameter_columns excel_file)) as [[g e]|] eqn:Hfirst;
    [|by apply first_repeat_None in Hfirst].
  split.
  - destruct Hout as [[(dt & g' & e' & ->) _]| ->]; done.
  - intros Hrec. destruct Hout as [[_ Hnot]|Hout]; [done|].
    apply first_repeat_Some in Hfirst
      as (before & after & Hcols & Hnodup & _ & [[]%elem_of_empty|Hdup]).
    exists before, g, e, after. repeat split; try done.
    intros Honly. destruct (decide (e = entity_id)) as [|Hne]; [done|].
    exfalso. rewrite Hcols, fmap_app, fmap_cons, filter_app, filter_cons in Honly.
    simpl in Honly. rewrite decide_True in Honly by done.
    apply NoDup_app in Honly as (_ & Hdisj & _).
    apply (Hdisj e); [by apply list_elem_of_filter | by left].
Qed.

Lemma duplicate_entity_aborts_construction_witness :
  raises (DataHandler_init (Workbooks.workbook Workbooks.tech))
  ∧ ∃ group,
      DataHandler_init (Workbooks.workbook Workbooks.tech)
      = Raise (ValueError ["Found duplicate id"; "conv_elec_wind"; "in sheet";
                           group]).
Proof.
  destruct (duplicate_entity_aborts_construction
              (Workbooks.workbook Workbooks.tech)
              1 2 "tech" "storage" "conv_elec_wind") as [Hraises Hnamed].
  - lia.
  - reflexivity.
  - reflexivity.
  - compute_done.
  - compute_done.
  - compute_done.
  - compute_done.
  - split; [exact Hraises|].
    destruct Hnamed as (before & group & dup & after & _ & _ & _ & Herr & Honly).
    + intros g Hg. apply list_elem_of_In in Hg. vm_compute in Hg.
      destruct Hg as [<-|[<-|[]]]; repeat constructor; compute_done.
    + exists group. rewrite <- (Honly ltac:(compute_done)). exact Herr.
Defined.

(** ** Capacity-enabled entities *)

Lemma cnf_enabled_spec self entities parameter out :
  cnf_enabled self entities parameter = Ok out →
  ∀ e, e ∈ out
       ↔ e ∈ entities
         ∧ ∃ r, check_cnf self e parameter = Ok r ∧ eq_one r = true.
Proof.
  revert out. induction entities as [|i rest IH]; intros out; simpl.
  - intros [= <-] e. split; [by intros ?%elem_of_nil|].
    by intros [?%elem_of_nil _].
  - intros (r & Hr & (tl & Htl & [= <-])%bind_Ok)%bind_Ok e.
    specialize (IH tl Htl e).
    destruct (eq_one r) eqn:Hone.
    + rewrite !elem_of_cons, IH. split.
      * intros [->|[? ?]]; [|by auto]. split; [by left|]. by exists r.
      * intros [[->|?] ?]; [by left | by auto].
    + rewrite elem_of_cons, IH. split.
      * intros [? ?]. by auto.
      * intros [[->|?] (r' & Hr' & Hone')]; [|by eauto].
        rewrite Hr in Hr'. injection Hr' as <-. congruence.
Qed.

Lemma cnf_enabled_total self entities parameter :
  (∀ e, e ∈ entities → ∃ r, check_cnf self e parameter = Ok r) →
  ∃ out, cnf_enabled self entities parameter = Ok out.
Proof.
  induction entities as [|i rest IH]; intros Hall; simpl; [by eexists|].
  destruct (Hall i) as [r ->]; [by left|].
  destruct IH as [tl ->]; [|by eexists].
  intros e He. apply Hall. by right.
Qed.

(** [build_cnf_set] keeps exactly the members of the set for which
    [check_cnf] returns an object equal to 1, and returns as soon as
    [check_cnf] raises for no member. *)
Lemma build_cnf_set_spec self (entity_set : gset string) parameter :
  (∀ out, build_cnf_set self entity_set parameter = Ok out →
     ∀ e, e ∈ out
          ↔ e ∈ entity_set
            ∧ ∃ r, check_cnf self e parameter = Ok r ∧ eq_one r = true)
  ∧ ((∀ e, e ∈ entity_set → ∃ r, check_cnf self e parameter = Ok r) →
     ∃ out, build_cnf_set self entity_set parameter = Ok out).
Proof.
  unfold build_cnf_set. split.
  - intros out (l & Hl & [= <-])%bind_Ok e.
    rewrite elem_of_list_to_set, (cnf_enabled_spec _ _ _ _ Hl), elem_of_elements.
    done.
  - intros Hall. destruct (cnf_enabled_total self (elements entity_set) parameter)
      as [l ->]; [|by eexists].
    intros e He. apply Hall. by apply elem_of_elements.
Qed.

Ltac inv_bind H :=
  repeat match type of H with
  | _ ≫= _ = Ok _ =>
      let a := fresh "a" in
      let Ha := fresh "Ha" in
      apply bind_Ok in H as (a & Ha & H)
  end.

(** *** Ordered sets *)

Lemma Set_ordered_snoc l x :
  Set_ordered (l ++ [x]) = Set_add (Set_ordered l) x.
Proof. unfold Set_ordered. by rewrite foldl_app. Qed.

Lemma elem_of_Set_ordered l x : x ∈ Set_ordered l ↔ x ∈ l.
Proof.
  induction l as [|a l IH] using rev_ind; [done|].
  rewrite Set_ordered_snoc, elem_of_app, list_elem_of_singleton.
  unfold Set_add. case_decide as Ha.
  - rewrite IH. split; [by left|]. intros [?| ->]; [done|]. by apply IH.
  - by rewrite elem_of_app, list_elem_of_singleton, IH.
Qed.

Lemma NoDup_Set_ordered l : NoDup (Set_ordered l).
Proof.
  induction l as [|a l IH] using rev_ind; [by constructor|].
  rewrite Set_ordered_snoc. unfold Set_add. case_decide as Ha; [done|].
  apply NoDup_app. split; [done|]. split; [|by apply NoDup_singleton].
  by intros x Hx ->%list_elem_of_singleton.
Qed.

Lemma Set_ordered_head l : head (Set_ordered l) = head l.
Proof.
  induction l as [|a l IH] using rev_ind; [done|].
  rewrite Set_ordered_snoc. unfold Set_add.
  destruct l as [|b l].
  - done.
  - case_decide as Ha; [done|].
    destruct (Set_ordered (b :: l)) as [|c s] eqn:Hs; [|done].
    assert (b ∈ Set_ordered (b :: l)) as Hb
      by (apply elem_of_Set_ordered; by left).
    rewrite Hs in Hb. by apply elem_of_nil in Hb.
Qed.

Lemma Set_ordered_last l x :
  last (Set_ordered l) = Some x →
  ∃ pre post, l = pre ++ x :: post ∧ x ∉ pre
              ∧ ∀ y, y ∈ post → y ∈ pre ∨ y = x.
Proof.
  induction l as [|a l IH] using rev_ind; [done|].
  rewrite Set_ordered_snoc. unfold Set_add. case_decide as Ha.
  - intros (pre & post & -> & Hpre & Hpost)%IH.
    exists pre, (post ++ [a]). rewrite <- app_assoc. split; [done|].
    split; [done|]. intros y [Hy| ->%list_elem_of_singleton]%elem_of_app.
    + by apply Hpost.
    + rewrite elem_of_Set_ordered in Ha.
      apply elem_of_app in Ha as [?|[->|?]%elem_of_cons]; auto.
  - rewrite last_snoc. intros [= ->]. exists l, [].
    split; [done|]. split; [by rewrite <- elem_of_Set_ordered|].
    by intros y ?%elem_of_nil.
Qed.

(** The sets that [_init_sets] attaches when it returns. *)
Lemma init_sets_inv cnf m :
  _init_sets cnf = Ok m →
  model.Y m = Set_ordered (YEARS cnf)
  ∧ model.D m = Set_ordered (DAYS cnf)
  ∧ model.H m = Set_ordered (HOURS cnf)
  ∧ model.E m = list_to_set (ENTITIES cnf)
  ∧ model.F m = list_to_set (FLOWS cnf)
  ∧ model.Pros m
    = list_to_set (ENTITIES cnf)
      ∖ list_to_set (filter (λ e, String.prefix "dem_" e = true) (ENTITIES cnf))
  ∧ build_cnf_set (DATA cnf) (model.Pros m) "enable_capacity"
    = Ok (model.Caps m).
Proof.
  unfold _init_sets. intros Hm. inv_bind Hm. injection Hm as <-. simpl.
  by repeat split.
Qed.

Example capacity_enabled_sample :
  (λ m, elements (model.Caps m)) <$> (match _init_sets System.cnf with
                                      | Ok m => Some m
                                      | Raise _ => None
                                      end) = Some ["conv_elec_pv"].
Proof. by vm_compute. Qed.

(** C9, as stated, fails: with the capacity flag of the PV technology at 2,
    the technology is a process and [check_cnf] returns 2 for it, an object
    that evaluates true, and yet the technology is not in the
    capacity-enabled set. *)
Lemma capacity_excludes_truthy_flag :
  ∃ m, _init_sets Capacity.cnf = Ok m
       ∧ "conv_elec_pv" ∈ model.Pros m
       ∧ check_cnf (DATA Capacity.cnf) "conv_elec_pv" "enable_capacity"
         = Ok (Some 2%Q)
       ∧ truthy (Some 2%Q) = true
       ∧ "conv_elec_pv" ∉ model.Caps m.
Proof.
  destruct (_init_sets Capacity.cnf) as [m|] eqn:Hm; [|by vm_compute in Hm].
  exists m. split; [reflexivity|].
  apply init_sets_inv in Hm as (_ & _ & _ & _ & _ & HPros & HCaps).
  split_and!.
  - rewrite HPros. compute_done.
  - reflexivity.
  - reflexivity.
  - intros Hin.
    apply (proj1 (build_cnf_set_spec _ _ _) _ HCaps) in Hin
      as (_ & r & Hr & Hone).
    vm_compute in Hr. injection Hr as <-. discriminate.
Qed.

Lemma eq_one_spec r : eq_one r = true ↔ ∃ q : Q, r = Some q ∧ (q == 1)%Q.
Proof.
  destruct r as [q|]; simpl.
  - rewrite Qeq_bool_iff. split; [by eauto|]. by intros (? & [= <-] & ?).
  - split; [done|]. by intros (? & ? & ?).
Qed.

(** C9: when [_init_sets] returns, the processes are the entities whose
    identifier does not start with [dem_], and the capacity-enabled set holds
    exactly the processes for which [check_cnf(entity, "enable_capacity")]
    returns a number equal to 1: every such process is in the set, and no
    other entity is, whether its flag is empty, zero or another number. *)
Theorem capacity_enabled_are_flagged_processes (cnf : Cnf) (m : ConcreteModel) :
  _init_sets cnf = Ok m →
  (∀ e, e ∈ model.Pros m
        ↔ e ∈ ENTITIES cnf ∧ String.prefix "dem_" e = false)
  ∧ (∀ e, e ∈ model.Caps m
          ↔ e ∈ model.Pros m
            ∧ ∃ q : Q, check_cnf (DATA cnf) e "enable_capacity" = Ok (Some q)
                       ∧ (q == 1)%Q).
Proof.
  intros (_ & _ & _ & _ & _ & HPros & HCaps)%init_sets_inv. split.
  - intros e. rewrite HPros, elem_of_difference, !elem_of_list_to_set.
    rewrite list_elem_of_filter. split.
    + intros [Hin Hnot]. split; [done|].
      destruct (String.prefix "dem_" e); [|done]. by destruct Hnot.
    + intros [Hin Hp]. split; [done|]. intros [Hp' _]. congruence.
  - intros e.
    rewrite (proj1 (build_cnf_set_spec _ _ _) _ HCaps e). split.
    + intros [HP (r & Hr & (q & -> & Hq)%eq_one_spec)]. by eauto.
    + intros [HP (q & Hr & Hq)]. split; [done|]. exists (Some q).
      split; [done|]. apply eq_one_spec. by eauto.
Qed.

Lemma capacity_enabled_are_flagged_processes_witness :
  ∃ m, _init_sets System.cnf = Ok m
       ∧ "conv_elec_pv" ∈ model.Caps m
       ∧ "dem_elec" ∉ model.Caps m.
Proof.
  destruct (_init_sets System.cnf) as [m|] eqn:Hm; [|by vm_compute in Hm].
  exists m. split; [reflexivity|].
  destruct (capacity_enabled_are_flagged_processes System.cnf m Hm)
    as [HPros HCaps].
  split.
  - apply HCaps. split.
    + apply HPros. split; [|reflexivity]. compute_done.
    + exists 1%Q. split; reflexivity.
  - intros [HP _]%HCaps. apply HPros in HP as [_ HP]. discriminate.
Defined.

Example capacity_flag_other_than_one :
  build_cnf_set
    {| fxe := ∅; params := {[ "conv_elec_pv" := System.flagged (VNum 2) ]} |}
    {[ "conv_elec_pv" ]} "enable_capacity" = Ok ∅.
Proof. by vm_compute. Qed.

(** ** The flow balance *)

Lemma mapM_Ok {A B} (g : A → result B) (h : A → B) (l : list A) :
  (∀ x, x ∈ l → g x = Ok (h x)) → mapM g l = Ok (h <$> l).
Proof.
  induction l as [|x l IH]; intros Hall; simpl; [done|].
  rewrite (Hall x) by by left. simpl.
  rewrite IH; [done|]. intros y Hy. apply Hall. by right.
Qed.

Lemma vars_sum_of_vars a vs :
  vars (foldl Add a (Var <$> vs)) = vars a ++ vs.
Proof.
  revert a. induction vs as [|v vs IH]; intros a; simpl.
  - by rewrite app_nil_r.
  - rewrite IH. simpl. by rewrite <- app_assoc.
Qed.

Lemma eval_sum_of_vars ρ a vs :
  (eval ρ (foldl Add a (Var <$> vs)) == eval ρ a + total ρ vs)%Q.
Proof.
  revert a. induction vs as [|v vs IH]; intros a; simpl.
  - ring.
  - rewrite IH. simpl. ring.
Qed.

Lemma elem_of_balance_index m f y d h :
  (f, y, d, h) ∈ balance_index m
  ↔ f ∈ model.F m ∧ y ∈ model.Y m ∧ d ∈ model.D m ∧ h ∈ model.H m.
Proof.
  unfold balance_index. rewrite list_elem_of_bind. split.
  - intros (f' & (y' & (d' & (h' & Hin & Hh)%list_elem_of_bind & Hd)
                      %list_elem_of_bind & Hy)%list_elem_of_bind & Hf).
    apply list_elem_of_singleton in Hin as [= -> -> -> ->].
    by apply elem_of_elements in Hf.
  - intros (Hf & Hy & Hd & Hh). exists f. split; [|by apply elem_of_elements].
    apply list_elem_of_bind. exists y. split; [|done].
    apply list_elem_of_bind. exists d. split; [|done].
    apply list_elem_of_bind. exists h. split; [|done].
    by apply list_elem_of_singleton.
Qed.

Lemma add_constraint_Raise rule e index :
  foldl (add_constraint rule) (Raise e) index = Raise e.
Proof. induction index as [|? ? IH]; [done|]. simpl. apply IH. Qed.

(** A constraint component that was built holds, at every index of its index
    set, the relation that the rule returns there, and nothing elsewhere. *)
Lemma Constraint_loop_lookup rule index cs0 cs :
  foldl (add_constraint rule) (Ok cs0) index = Ok cs →
  ∀ f y d h,
    ((f, y, d, h) ∈ index →
     ∃ c, rule f y d h = Ok (Relation c) ∧ cs !! (f, y, d, h) = Some c)
    ∧ ((f, y, d, h) ∉ index → cs !! (f, y, d, h) = cs0 !! (f, y, d, h)).
Proof.
  revert cs0. induction index as [|[[[f' y'] d'] h'] index IH]; intros cs0.
  - simpl. intros [= <-] f y d h. split; [by intros ?%elem_of_nil | done].
  - simpl. destruct (rule f' y' d' h') as [[c|b]|e] eqn:Hrule; simpl;
      [|by rewrite add_constraint_Raise..].
    intros Hcs f y d h. destruct (IH _ Hcs f y d h) as [Hin Hout]. split.
    + intros Hel. destruct (decide ((f, y, d, h) ∈ index)) as [|Hnot];
        [by auto|].
      apply elem_of_cons in Hel as [[= -> -> -> ->]|]; [|done].
      exists c. split; [done|]. by rewrite Hout, lookup_insert_eq.
    + intros [Hne Hnot]%not_elem_of_cons.
      by rewrite Hout, lookup_insert_ne.
Qed.

Lemma py_eq_Relation a b c :
  py_eq a b = Relation c → c = EqualityExpression a b.
Proof. destruct a, b; simpl; congruence. Qed.

Section balance.
Context (m : ConcreteModel) (flow_id : string) (y d h : Z).
Hypothesis Hy : y ∈ model.Y m.
Hypothesis Hd : d ∈ model.D m.
Hypothesis Hh : h ∈ model.H m.

Lemma elem_of_at_flow rel fe :
  fe ∈ at_flow flow_id rel ↔ fe ∈ rel ∧ fe.1 = flow_id.
Proof.
  unfold at_flow. rewrite list_elem_of_filter, elem_of_elements. tauto.
Qed.

Lemma NoDup_at_flow rel : NoDup (at_flow flow_id rel).
Proof. apply NoDup_filter, NoDup_elements. Qed.

Lemma outflow_terms :
  terms_of (λ f e, getitem_fout m f e y d h) (model.FoE m) flow_id
  = Ok (Var <$> ((λ fe, fout fe.1 fe.2 y d h) <$> at_flow flow_id (model.FoE m))).
Proof.
  unfold terms_of. rewrite <- list_fmap_compose. apply mapM_Ok.
  intros [f e] [Hin _]%elem_of_at_flow. unfold getitem_fout. simpl.
  by rewrite bool_decide_eq_true_2.
Qed.

Lemma inflow_terms :
  terms_of (λ f e, getitem_fin m f e y d h) (model.FiE m) flow_id
  = Ok (Var <$> ((λ fe, fin fe.1 fe.2 y d h) <$> at_flow flow_id (model.FiE m))).
Proof.
  unfold terms_of. rewrite <- list_fmap_compose. apply mapM_Ok.
  intros [f e] [Hin _]%elem_of_at_flow. unfold getitem_fin. simpl.
  by rewrite bool_decide_eq_true_2.
Qed.

(** What the rule returns at an index of the constraint. *)
Lemma c_io_balance_rule :
  _c_io_balance m flow_id y d h
  = Ok (py_eq
          (py_sum (Var <$> ((λ fe, fout fe.1 fe.2 y d h)
                              <$> at_flow flow_id (model.FoE m))))
          (py_sum (Var <$> ((λ fe, fin fe.1 fe.2 y d h)
                              <$> at_flow flow_id (model.FiE m))))).
Proof. unfold _c_io_balance. by rewrite outflow_terms, inflow_terms. Qed.

Lemma vars_py_sum vs : vars (py_sum (Var <$> vs)) = vs.
Proof. unfold py_sum. by rewrite vars_sum_of_vars. Qed.

Lemma eval_py_sum ρ vs : (eval ρ (py_sum (Var <$> vs)) == total ρ vs)%Q.
Proof. unfold py_sum. rewrite eval_sum_of_vars. simpl. ring. Qed.

Lemma flow_vars_spec (mk : string → string → variable)
    (rel : gset (string * string)) :
  (∀ f e f' e', mk f e = mk f' e' → (f, e) = (f', e')) →
  NoDup ((λ fe, mk fe.1 fe.2) <$> at_flow flow_id rel)
  ∧ ∀ v, v ∈ (λ fe, mk fe.1 fe.2) <$> at_flow flow_id rel
         ↔ ∃ e, (flow_id, e) ∈ rel ∧ v = mk flow_id e.
Proof.
  intros Hinj. split.
  - apply NoDup_fmap_2_strong; [|apply NoDup_at_flow].
    intros [f e] [f' e'] _ _. apply Hinj.
  - intros v. rewrite list_elem_of_fmap. split.
    + intros ([f e] & -> & [Hin Hf]%elem_of_at_flow). simpl in *. subst f.
      by exists e.
    + intros (e & Hin & ->). exists (flow_id, e). split; [done|].
      by apply elem_of_at_flow.
Qed.
End balance.

Lemma init_model_inv expressions cnf m :
  init_model expressions cnf = Ok m →
  ∃ m0, _init_sets cnf = Ok m0
    ∧ model.Y m = model.Y m0 ∧ model.D m = model.D m0
    ∧ model.H m = model.H m0 ∧ model.F m = model.F m0
    ∧ model.E m = model.E m0
    ∧ model.Pros m = model.Pros m0 ∧ model.Caps m = model.Caps m0
    ∧ model.FiE m = model.FiE m0 ∧ model.FoE m = model.FoE m0
    ∧ Constraint (balance_index m0) (_c_io_balance m0)
      = Ok (model.c_io_balance m).
Proof.
  unfold init_model. intros Hm. inv_bind Hm. injection Hm as <-. simpl.
  eexists. by repeat split.
Qed.

Example flow_balance_sample :
  (λ m, model.c_io_balance m !! ("elec", 2025%Z, 0%Z, 12%Z))
    <$> (match init_model System.expressions System.cnf with
         | Ok m => Some m
         | Raise _ => None
         end)
  = Some (Some (EqualityExpression
                  (Add (Const 0) (Var (fout "elec" "conv_elec_pv" 2025 0 12)))
                  (Add (Const 0) (Var (fin "elec" "dem_elec" 2025 0 12))))).
Proof. by vm_compute. Qed.

(** C5: in a model that [init_model] returns, the component [c_io_balance]
    holds one relation for every index (flow, year, day, hour) of
    [F x Y x D x H] and nothing else. That relation is an equality. The
    variables of its left side are, once each, the outflow variables at
    (flow, entity, year, day, hour) for the pairs (flow, entity) of [FoE] with
    that flow; the variables of its right side are, once each, the inflow
    variables at the same time index for the pairs of [FiE] with that flow;
    and an assignment satisfies it exactly when the two totals are equal. *)
Theorem flow_balance_is_equality_of_totals
    (expressions : Cnf → ConcreteModel → result unit)
    (cnf : Cnf) (m : ConcreteModel) :
  init_model expressions cnf = Ok m →
  (∀ (f : string) (y d h : Z),
     f ∈ model.F m → y ∈ model.Y m → d ∈ model.D m → h ∈ model.H m →
     ∃ lhs rhs,
       model.c_io_balance m !! (f, y, d, h) = Some (EqualityExpression lhs rhs)
       ∧ NoDup (vars lhs)
       ∧ (∀ v, v ∈ vars lhs ↔ ∃ e, (f, e) ∈ model.FoE m ∧ v = fout f e y d h)
       ∧ NoDup (vars rhs)
       ∧ (∀ v, v ∈ vars rhs ↔ ∃ e, (f, e) ∈ model.FiE m ∧ v = fin f e y d h)
       ∧ ∀ ρ, holds ρ (EqualityExpression lhs rhs)
              ↔ (total ρ (vars lhs) == total ρ (vars rhs))%Q)
  ∧ (∀ (f : string) (y d h : Z),
       is_Some (model.c_io_balance m !! (f, y, d, h)) →
       f ∈ model.F m ∧ y ∈ model.Y m ∧ d ∈ model.D m ∧ h ∈ model.H m).
Proof.
  intros (m0 & _ & -> & -> & -> & -> & _ & _ & _ & -> & -> & Hc)%init_model_inv.
  unfold Constraint in Hc.
  pose proof (Constraint_loop_lookup _ _ _ _ Hc) as Hlookup. split.
  - intros f y d h Hf Hy Hd Hh.
    destruct (Hlookup f y d h) as [Hin _].
    destruct Hin as (c & Hrule & Hget); [by apply elem_of_balance_index|].
    rewrite (c_io_balance_rule m0 f y d h Hy Hd Hh) in Hrule.
    injection Hrule as Hrule. apply py_eq_Relation in Hrule as ->.
    eexists _, _. split; [exact Hget|].
    rewrite !vars_py_sum.
    destruct (flow_vars_spec f (λ f e, fout f e y d h) (model.FoE m0))
      as [Hnd_out Hout]; [by intros ???? [= -> ->]|].
    destruct (flow_vars_spec f (λ f e, fin f e y d h) (model.FiE m0))
      as [Hnd_in Hin]; [by intros ???? [= -> ->]|].
    repeat split; try done; try apply Hout; try apply Hin.
    + simpl. intros Heq. by rewrite <- !eval_py_sum.
    + simpl. intros Heq. by rewrite !eval_py_sum.
  - intros f y d h Hsome. apply elem_of_balance_index.
    destruct (decide ((f, y, d, h) ∈ balance_index m0)) as [|Hnot]; [done|].
    destruct (Hlookup f y d h) as [_ Hout].
    rewrite (Hout Hnot), lookup_empty in Hsome. by destruct Hsome.
Qed.

Lemma flow_balance_is_equality_of_totals_witness :
  ∃ m lhs rhs,
    init_model System.expressions System.cnf = Ok m
    ∧ model.c_io_balance m !! ("elec", 2025%Z, 0%Z, 12%Z)
      = Some (EqualityExpression lhs rhs)
    ∧ (∀ v, v ∈ vars lhs
            ↔ ∃ e, ("elec", e) ∈ model.FoE m ∧ v = fout "elec" e 2025 0 12).
Proof.
  destruct (init_model System.expressions System.cnf) as [m|] eqn:Hm;
    [|by vm_compute in Hm].
  destruct (flow_balance_is_equality_of_totals _ _ _ Hm) as [Hbal _].
  destruct (init_model_inv _ _ _ Hm)
    as (m0 & Hm0 & HY & HD & HH & HF & _).
  apply init_sets_inv in Hm0 as (HY0 & HD0 & HH0 & _ & HF0 & _).
  destruct (Hbal "elec" 2025%Z 0%Z 12%Z)
    as (lhs & rhs & Hget & _ & Hvars & _).
  - rewrite HF, HF0. compute_done.
  - rewrite HY, HY0. compute_done.
  - rewrite HD, HD0. compute_done.
  - rewrite HH, HH0. compute_done.
  - exists m, lhs, rhs. split; [reflexivity|]. split; [exact Hget | exact Hvars].
Defined.

(** ** The balance is always built *)

Lemma flow_entity_pairs_spec flows f_x pairs :
  flow_entity_pairs flows f_x = Ok pairs →
  (∀ f, f ∈ flows → is_Some (f_x !! f))
  ∧ ∀ f e, (f, e) ∈ pairs ↔ f ∈ flows ∧ ∃ es, f_x !! f = Some es ∧ e ∈ es.
Proof.
  revert pairs. induction flows as [|g flows IH]; intros pairs; simpl.
  - intros [= <-]. split; [by intros f ?%elem_of_nil|].
    intros f e. split; [by intros ?%elem_of_nil|].
    by intros [?%elem_of_nil _].
  - intros (es & Hes & (tl & Htl & [= <-])%bind_Ok)%bind_Ok.
    unfold getitem in Hes. destruct (f_x !! g) as [es'|] eqn:Hg; [|done].
    injection Hes as ->. destruct (IH tl Htl) as [IHkey IHmem]. split.
    + intros f [->|Hf]%elem_of_cons; [by eexists | by apply IHkey].
    + intros f e. rewrite elem_of_app, list_elem_of_fmap, IHmem, elem_of_cons.
      split.
      * intros [(e' & [= -> ->] & He)|[Hf Hes]]; [|by auto].
        split; [by left|]. by exists es.
      * intros [[->|Hf] (es' & Hes' & He)]; [|by eauto].
        left. exists e. split; [done|]. congruence.
Qed.

Lemma Set_within_inv F E pairs rel :
  Set_within F E pairs = Ok rel → rel = list_to_set pairs.
Proof. unfold Set_within. case_bool_decide; congruence. Qed.

Lemma getitem_Ok `{Countable K} {V} (d : gmap K V) k repr v :
  getitem d k repr = Ok v → d !! k = Some v.
Proof. unfold getitem. destruct (d !! k); congruence. Qed.

Lemma init_sets_relations_inv cnf m :
  _init_sets cnf = Ok m →
  ∃ FiE_df FoE_df FiE_pairs FoE_pairs,
    fxe (DATA cnf) !! "FiE" = Some FiE_df
    ∧ fxe (DATA cnf) !! "FoE" = Some FoE_df
    ∧ flow_entity_pairs (elements (model.F m))
        (get_flow_entity_dict FiE_df false) = Ok FiE_pairs
    ∧ flow_entity_pairs (elements (model.F m))
        (get_flow_entity_dict FoE_df false) = Ok FoE_pairs
    ∧ model.FiE m = list_to_set FiE_pairs
    ∧ model.FoE m = list_to_set FoE_pairs.
Proof.
  unfold _init_sets. intros Hm. inv_bind Hm. injection Hm as <-. simpl.
  repeat match goal with
  | H : Set_within _ _ _ = Ok _ |- _ => apply Set_within_inv in H as ->
  | H : getitem _ _ _ = Ok _ |- _ => apply getitem_Ok in H
  end.
  eexists _, _, _, _. repeat split; eassumption.
Qed.

Lemma flow_entity_dict_members io_df f e :
  (∃ es, get_flow_entity_dict io_df false !! f = Some es ∧ e ∈ es)
  ↔ (e, f) ∈ stack_index io_df.
Proof.
  rewrite get_flow_entity_dict_lookup, <- elem_of_connected.
  unfold index_tuples. simpl.
  destruct (connected (stack_index io_df) f) as [|p c].
  - split; [by intros (? & ? & ?) | by intros ?%elem_of_nil].
  - split; [by intros (? & [= <-] & ?) | by eauto].
Qed.

(** A relation built from the pairs of an adjacency table: a pair is in it
    when its flow is one of the given flows and the table has a cell for the
    entity and the flow that is not empty; every given flow is in at least
    one pair. *)
Lemma relation_of_pairs (flows : gset string) io_df pairs :
  flow_entity_pairs (elements flows) (get_flow_entity_dict io_df false)
  = Ok pairs →
  (∀ f e, (f, e) ∈ (list_to_set pairs : gset (string * string))
          ↔ f ∈ flows ∧ (e, f) ∈ stack_index io_df)
  ∧ (∀ f, f ∈ flows →
          ∃ e, (f, e) ∈ (list_to_set pairs : gset (string * string))).
Proof.
  intros [Hkey Hmem]%flow_entity_pairs_spec.
  assert (∀ f e, (f, e) ∈ (list_to_set pairs : gset (string * string))
                 ↔ f ∈ flows ∧ (e, f) ∈ stack_index io_df) as Hrel.
  { intros f e.
    by rewrite elem_of_list_to_set, Hmem, elem_of_elements,
      flow_entity_dict_members. }
  split; [done|]. intros f Hf.
  destruct (Hkey f) as [es Hes]; [by apply elem_of_elements|].
  destruct (flow_entity_dict_nonempty _ _ _ _ Hes) as [e He].
  exists e. apply Hrel. split; [done|].
  apply flow_entity_dict_members. by exists es.
Qed.

(** The two relations of a model whose sets were built. *)
Lemma init_sets_relations cnf m :
  _init_sets cnf = Ok m →
  ∃ FiE_df FoE_df,
    fxe (DATA cnf) !! "FiE" = Some FiE_df
    ∧ fxe (DATA cnf) !! "FoE" = Some FoE_df
    ∧ (∀ f e, (f, e) ∈ model.FiE m
              ↔ f ∈ model.F m ∧ (e, f) ∈ stack_index FiE_df)
    ∧ (∀ f e, (f, e) ∈ model.FoE m
              ↔ f ∈ model.F m ∧ (e, f) ∈ stack_index FoE_df)
    ∧ (∀ f, f ∈ model.F m → ∃ e, (f, e) ∈ model.FiE m)
    ∧ (∀ f, f ∈ model.F m → ∃ e, (f, e) ∈ model.FoE m).
Proof.
  intros (FiE_df & FoE_df & FiE_pairs & FoE_pairs & Hi & Ho & Hpi & Hpo
          & -> & ->)%init_sets_relations_inv.
  destruct (relation_of_pairs _ _ _ Hpi) as [? ?].
  destruct (relation_of_pairs _ _ _ Hpo) as [? ?].
  by exists FiE_df, FoE_df.
Qed.

Lemma sum_from_Add a b ts : ∃ a' b', foldl Add (Add a b) ts = Add a' b'.
Proof.
  revert a b. induction ts as [|t ts IH]; intros a b; simpl; [by eauto|].
  apply IH.
Qed.

(** At an index of the constraint, a flow with at least one pair in [FoE]
    makes the rule return a relation and not a plain boolean. *)
Lemma balance_rule_Relation m f y d h :
  y ∈ model.Y m → d ∈ model.D m → h ∈ model.H m →
  (∃ e, (f, e) ∈ model.FoE m) →
  ∃ c, _c_io_balance m f y d h = Ok (Relation c).
Proof.
  intros Hy Hd Hh [e He]. rewrite (c_io_balance_rule m f y d h Hy Hd Hh).
  assert ((f, e) ∈ at_flow f (model.FoE m)) as Hin
    by by apply elem_of_at_flow.
  destruct (at_flow f (model.FoE m)) as [|fe l]; [by apply elem_of_nil in Hin|].
  unfold py_sum at 1. rewrite !fmap_cons. cbn [foldl].
  match goal with
  | |- context [foldl Add (Add ?a ?b) ?ts] =>
      destruct (sum_from_Add a b ts) as (a' & b' & ->)
  end.
  simpl. by eexists.
Qed.

Lemma Constraint_total index rule :
  (∀ f y d h, (f, y, d, h) ∈ index → ∃ c, rule f y d h = Ok (Relation c)) →
  ∃ cs, Constraint index rule = Ok cs.
Proof.
  unfold Constraint. generalize (∅ : gmap (string * Z * Z * Z) relational).
  induction index as [|[[[f y] d] h] index IH]; intros cs0 Hall; simpl;
    [by eexists|].
  destruct (Hall f y d h) as [c ->]; [by left|]. simpl.
  apply IH. intros f' y' d' h' Hin. apply Hall. by right.
Qed.

(** Once the sets, the parameters and the expressions are built, the balance
    constraint is built as well: [init_model] returns a model. *)
Lemma init_model_total expressions cnf m0 :
  _init_sets cnf = Ok m0 →
  _init_parameters cnf m0 = Ok tt →
  expressions cnf m0 = Ok tt →
  ∃ m, init_model expressions cnf = Ok m.
Proof.
  intros Hsets Hpar Hexpr. unfold init_model. rewrite Hsets. simpl.
  rewrite Hpar. simpl. rewrite Hexpr. simpl.
  destruct (init_sets_relations cnf m0 Hsets)
    as (_ & _ & _ & _ & _ & _ & _ & Hout).
  destruct (Constraint_total (balance_index m0) (_c_io_balance m0))
    as [cs ->]; [|by eexists].
  intros f y d h (Hf & Hy & Hd & Hh)%elem_of_balance_index.
  apply balance_rule_Relation; auto.
Qed.

(** ** The direct accessors, key by key *)

Lemma stored_Some `{Countable K} self
    (sel : entity_params → option (gmap K value)) entity_id (k : K) v :
  stored self sel entity_id k = Some v →
  ∃ p, params self !! entity_id = Some p ∧ record sel p k = Some v.
Proof.
  unfold stored. destruct (params self !! entity_id) as [p|]; [|done].
  simpl. by exists p.
Qed.

Ltac missing_key Hs sel self e :=
  unfold stored, record in Hs;
  unfold getitem, getfield, reraise_KeyError;
  destruct (params self !! e) as [p|]; simpl in *; [|done];
  destruct (sel p) as [t|]; simpl in *; [|done];
  rewrite Hs; done.

(** X1: each of the accessors [check_cnf], [get_const] and [get_const_fxe]
    is decided by the one object that the store holds under its key. With no
    such object the accessor raises the [KeyError] that names the entity and
    the parameter (and the flow); a number is returned as it is, an empty
    cell as [None], and any other object makes it raise a [TypeError]. *)
Theorem const_accessors_by_stored_object (self : DataHandler)
    (entity_id parameter flow : string) :
  check_cnf self entity_id parameter
  = match stored self configuration entity_id parameter with
    | Some v => surface v
    | None => Raise (KeyError ["Invalid key for"; entity_id; parameter])
    end
  ∧ get_const self entity_id parameter
    = match stored self constant entity_id parameter with
      | Some v => surface v
      | None => Raise (KeyError ["Invalid key for"; entity_id; parameter])
      end
  ∧ get_const_fxe self entity_id parameter flow
    = match stored self constant_fxe entity_id (parameter, flow) with
      | Some v => surface v
      | None => Raise (KeyError ["Invalid key for"; entity_id; parameter; flow])
      end.
Proof.
  split; [|split].
  - destruct (stored self configuration entity_id parameter) as [v|] eqn:Hs.
    + apply stored_Some in Hs as (p & Hp & Hr). by eapply check_cnf_record.
    + unfold check_cnf. missing_key Hs configuration self entity_id.
  - destruct (stored self constant entity_id parameter) as [v|] eqn:Hs.
    + apply stored_Some in Hs as (p & Hp & Hr). by eapply get_const_record.
    + unfold get_const. missing_key Hs constant self entity_id.
  - destruct (stored self constant_fxe entity_id (parameter, flow))
      as [v|] eqn:Hs.
    + apply stored_Some in Hs as (p & Hp & Hr). by eapply get_const_fxe_record.
    + unfold get_const_fxe. missing_key Hs constant_fxe self entity_id.
Qed.

(** X2: [get_annual] and [get_annual_fxe] raise a [KeyError] exactly when the
    store holds no object under the key, and otherwise surface the stored
    object like the other accessors. *)
Theorem annual_accessors_by_stored_object (self : DataHandler)
    (entity_id parameter flow : string) (year : Z) :
  (is_KeyError (get_annual self entity_id parameter year)
   ↔ stored self annual entity_id (parameter, year) = None)
  ∧ (∀ v, stored self annual entity_id (parameter, year) = Some v →
          get_annual self entity_id parameter year = surface v)
  ∧ (is_KeyError (get_annual_fxe self entity_id parameter flow year)
     ↔ stored self annual_fxe entity_id (parameter, flow, year) = None)
  ∧ (∀ v, stored self annual_fxe entity_id (parameter, flow, year) = Some v →
          get_annual_fxe self entity_id parameter flow year = surface v).
Proof.
  assert (∀ v, ¬ is_KeyError (surface v)) as Hsurf
    by (intros [| |]; simpl; auto).
  split; [|split; [|split]].
  - destruct (stored self annual entity_id (parameter, year)) as [v|] eqn:Hs.
    + apply stored_Some in Hs as (p & Hp & Hr).
      rewrite (get_annual_record _ _ _ _ Hp _ _ Hr). split; [|done].
      by intros ?%Hsurf.
    + split; [done|]. intros _. unfold get_annual. missing_key Hs annual self entity_id.
  - intros v (p & Hp & Hr)%stored_Some. by eapply get_annual_record.
  - destruct (stored self annual_fxe entity_id (parameter, flow, year))
      as [v|] eqn:Hs.
    + apply stored_Some in Hs as (p & Hp & Hr).
      rewrite (get_annual_fxe_record _ _ _ _ Hp _ _ _ Hr). split; [|done].
      by intros ?%Hsurf.
    + split; [done|]. intros _. unfold get_annual_fxe. missing_key Hs annual_fxe self entity_id.
  - intros v (p & Hp & Hr)%stored_Some. by eapply get_annual_fxe_record.
Qed.

(** ** The generic getters, table by table *)

Lemma resolve_TypeError first second trigger_error args :
  resolve first second trigger_error (KeyError args) = Raise TypeError
  ↔ (∃ s, first = Some (VStr s))
    ∨ ((first = None ∨ first = Some VNaN) ∧ ∃ s, second = Some (VStr s)).
Proof.
  destruct first as [[q| |s]|], second as [[q'| |s']|], trigger_error; simpl;
    split; try discriminate; try (by eauto);
    try (intros [[? [=]]|[[[=]|[=]] [? [=]]]]; fail);
    try (intros _; right; split; [by auto | by eauto]).
Qed.

(** X3: [get] raises a [TypeError] exactly when the object it ends up
    reading is not numeric: the annual record when there is one and it holds
    text, or the constant record when the annual record is missing or empty
    and the constant one holds text. A text constant behind a numeric annual
    record is never read. The same holds for [get_fxe] with the per-flow
    tables. *)
Theorem get_TypeError_iff_text_is_read (self : DataHandler)
    (entity_id parameter flow : string) (year : Z) (p : entity_params)
    (trigger_error : bool) :
  params self !! entity_id = Some p →
  (get self entity_id parameter year trigger_error = Raise TypeError
   ↔ (∃ s, record annual p (parameter, year) = Some (VStr s))
     ∨ ((record annual p (parameter, year) = None
         ∨ record annual p (parameter, year) = Some VNaN)
        ∧ ∃ s, record constant p parameter = Some (VStr s)))
  ∧ (get_fxe self entity_id parameter flow year trigger_error = Raise TypeError
     ↔ (∃ s, record annual_fxe p (parameter, flow, year) = Some (VStr s))
       ∨ ((record annual_fxe p (parameter, flow, year) = None
           ∨ record annual_fxe p (parameter, flow, year) = Some VNaN)
          ∧ ∃ s, record constant_fxe p (parameter, flow) = Some (VStr s))).
Proof.
  intros Hp. split.
  - rewrite (get_resolve _ _ _ _ Hp). apply resolve_TypeError.
  - rewrite (get_fxe_resolve _ _ _ _ Hp). apply resolve_TypeError.
Qed.

Lemma get_TypeError_iff_text_is_read_witness :
  get (Samples.pv_store VNaN (VStr "n/a")) "conv_elec_pv" "efficiency" 2020 false
    = Raise TypeError
  ∧ get (Samples.pv_store (VNum 0.3) (VStr "n/a")) "conv_elec_pv" "efficiency"
      2020 false ≠ Raise TypeError.
Proof.
  destruct (get_TypeError_iff_text_is_read
              (Samples.pv_store VNaN (VStr "n/a")) "conv_elec_pv" "efficiency"
              "elec" 2020 (Samples.pv VNaN (VStr "n/a")) false eq_refl)
    as [Hnan _].
  destruct (get_TypeError_iff_text_is_read
              (Samples.pv_store (VNum 0.3) (VStr "n/a")) "conv_elec_pv"
              "efficiency" "elec" 2020 (Samples.pv (VNum 0.3) (VStr "n/a"))
              false eq_refl) as [Hnum _].
  split.
  - apply Hnan. right. split; [by right | by exists "n/a"].
  - intros Herr. apply Hnum in Herr.
    destruct Herr as [[s Hs]|[[Hn|Hn] _]]; vm_compute in *; discriminate.
Defined.

(** X4: for a parameter that an entity holds in its constant table, [get]
    at any year for which the annual table has no record is [get_const]; so
    [get] gives the same answer at any two such years. *)
Theorem get_constant_is_year_invariant (self : DataHandler)
    (entity_id parameter : string) (p : entity_params) (v : value)
    (trigger_error : bool) :
  params self !! entity_id = Some p →
  record constant p parameter = Some v →
  (∀ year : Z,
     record annual p (parameter, year) = None →
     get self entity_id parameter year trigger_error
     = get_const self entity_id parameter)
  ∧ (∀ year1 year2 : Z,
       record annual p (parameter, year1) = None →
       record annual p (parameter, year2) = None →
       get self entity_id parameter year1 trigger_error
       = get self entity_id parameter year2 trigger_error).
Proof.
  intros Hp Hc.
  assert (∀ year : Z,
            record annual p (parameter, year) = None →
            get self entity_id parameter year trigger_error
            = get_const self entity_id parameter) as Hconst.
  { intros year Ha.
    by rewrite (get_resolve _ _ _ _ Hp), Ha, Hc,
      (get_const_record _ _ _ _ Hp _ Hc). }
  split; [done|]. intros year1 year2 H1 H2. by rewrite !Hconst.
Qed.

Lemma get_constant_is_year_invariant_witness :
  get (Samples.pv_store (VNum 0.3) (VNum 0.5)) "conv_elec_pv" "efficiency" 2030
      true
  = get (Samples.pv_store (VNum 0.3) (VNum 0.5)) "conv_elec_pv" "efficiency" 2040
      true.
Proof.
  destruct (get_constant_is_year_invariant
              (Samples.pv_store (VNum 0.3) (VNum 0.5)) "conv_elec_pv"
              "efficiency" (Samples.pv (VNum 0.3) (VNum 0.5)) (VNum 0.5) true
              eq_refl eq_refl) as [_ Hyears].
  apply Hyears; reflexivity.
Defined.

(** X5: the strictness flag only matters when nothing is found: as soon as
    the annual or the constant table has a record for the combination, [get]
    gives the same outcome with and without it, and so does [get_fxe]. *)
Theorem strictness_is_idle_when_found (self : DataHandler)
    (entity_id parameter flow : string) (year : Z) (p : entity_params) :
  params self !! entity_id = Some p →
  (is_Some (record annual p (parameter, year))
   ∨ is_Some (record constant p parameter) →
   get self entity_id parameter year true
   = get self entity_id parameter year false)
  ∧ (is_Some (record annual_fxe p (parameter, flow, year))
     ∨ is_Some (record constant_fxe p (parameter, flow)) →
     get_fxe self entity_id parameter flow year true
     = get_fxe self entity_id parameter flow year false).
Proof.
  intros Hp. split.
  - rewrite !(get_resolve _ _ _ _ Hp).
    destruct (record annual p (parameter, year)) as [[| |]|],
      (record constant p parameter) as [[| |]|]; simpl; try done.
    by intros [[? [=]]|[? [=]]].
  - rewrite !(get_fxe_resolve _ _ _ _ Hp).
    destruct (record annual_fxe p (parameter, flow, year)) as [[| |]|],
      (record constant_fxe p (parameter, flow)) as [[| |]|]; simpl; try done.
    by intros [[? [=]]|[? [=]]].
Qed.

Lemma strictness_is_idle_when_found_witness :
  get (Samples.pv_store VNaN VNaN) "conv_elec_pv" "efficiency" 2020 true
  = get (Samples.pv_store VNaN VNaN) "conv_elec_pv" "efficiency" 2020 false.
Proof.
  apply (strictness_is_idle_when_found (Samples.pv_store VNaN VNaN)
           "conv_elec_pv" "efficiency" "elec" 2020 (Samples.pv VNaN VNaN)
           eq_refl).
  left. by eexists.
Defined.

(** ** Configuration sets *)

Lemma cnf_enabled_raises self entities parameter :
  raises (cnf_enabled self entities parameter)
  ↔ ∃ e, e ∈ entities ∧ raises (check_cnf self e parameter).
Proof.
  induction entities as [|i rest IH]; simpl.
  - split; [done|]. by intros (e & ?%elem_of_nil & _).
  - destruct (check_cnf self i parameter) as [r|exn] eqn:Hi; simpl.
    + destruct (cnf_enabled self rest parameter) as [tl|exn]; simpl in *.
      * split; [done|]. intros (e & [->|He]%elem_of_cons & Hr).
        -- by rewrite Hi in Hr.
        -- apply IH. by exists e.
      * split; [|done]. intros _. destruct IH as [IH _].
        destruct (IH I) as (e & He & Hr). exists e. split; [by right | done].
    + split; [|done]. intros _. exists i. split; [by left|]. by rewrite Hi.
Qed.

(** X6: [build_cnf_set] skips nothing silently: it raises exactly when
    [check_cnf] raises for some member of the given set (a member without
    the configuration option, for one), and a set that it returns is a part
    of the given set. *)
Theorem build_cnf_set_raises_iff_member_raises (self : DataHandler)
    (entity_set : gset string) (parameter : string) :
  (raises (build_cnf_set self entity_set parameter)
   ↔ ∃ e, e ∈ entity_set ∧ raises (check_cnf self e parameter))
  ∧ (∀ out, build_cnf_set self entity_set parameter = Ok out →
            out ⊆ entity_set).
Proof.
  split.
  - unfold build_cnf_set.
    destruct (cnf_enabled self (elements entity_set) parameter) as [l|exn]
      eqn:Hl; simpl.
    + split; [done|]. intros (e & He & Hr).
      assert (raises (cnf_enabled self (elements entity_set) parameter))
        as Hraise.
      { apply cnf_enabled_raises. exists e. by rewrite elem_of_elements. }
      by rewrite Hl in Hraise.
    + split; [|done]. intros _.
      assert (raises (cnf_enabled self (elements entity_set) parameter))
        as Hraise by by rewrite Hl.
      apply cnf_enabled_raises in Hraise as (e & He & Hr).
      exists e. by rewrite <- elem_of_elements.
  - intros out Hout e He.
    by apply (proj1 (build_cnf_set_spec self entity_set parameter) out Hout).
Qed.

(** ** The two readings of an adjacency table *)

Lemma isna_false v : isna v = false ↔ v ≠ VNaN.
Proof. destruct v; simpl; split; congruence. Qed.

Lemma elem_of_stack_index io_df r c :
  (r, c) ∈ stack_index io_df ↔ connects io_df r c.
Proof.
  unfold stack_index, connects. rewrite list_elem_of_bind. split.
  - intros ([r' cells] & Hin & Hrow).
    apply list_elem_of_bind in Hin as ([c' v] & Hin & Hcol).
    destruct (isna v) eqn:Hv; [by apply elem_of_nil in Hin|].
    apply list_elem_of_singleton in Hin as [= -> ->].
    apply elem_of_lookup_zip_with in Hrow as (i & ? & ? & [= <- <-] & Hi & Hcells).
    apply elem_of_lookup_zip_with in Hcol as (j & ? & ? & [= <- <-] & Hj & Hcell).
    exists i, j, cells, v. by rewrite <- isna_false.
  - intros (i & j & cells & v & Hi & Hcells & Hj & Hcell & Hv).
    exists (r, cells). split.
    + apply list_elem_of_bind. exists (c, v). split.
      * apply isna_false in Hv. rewrite Hv. by apply list_elem_of_singleton.
      * apply elem_of_lookup_zip_with. by exists j, c, v.
    + apply elem_of_lookup_zip_with. by exists i, r, cells.
Qed.

Lemma connects_transpose io_df r c :
  connects (transpose io_df) c r ↔ connects io_df r c.
Proof.
  unfold connects, transpose. simpl. split.
  - intros (j & i & col & v & Hj & Hcol & Hi & Hv & Hna).
    apply list_lookup_imap_Some in Hcol as (c' & _ & ->).
    apply list_lookup_fmap_Some in Hv as (cells & Hv & Hcells).
    exists i, j, cells, v. repeat split; try done.
    destruct (cells !! j) as [v'|]; simpl in *; congruence.
  - intros (i & j & cells & v & Hi & Hcells & Hj & Hv & Hna).
    exists j, i, ((λ cells, default VNaN (cells !! j)) <$> df_values io_df), v.
    repeat split; try done.
    + rewrite list_lookup_imap, Hj. done.
    + rewrite list_lookup_fmap, Hcells. simpl. by rewrite Hv.
Qed.

Lemma listed_flow_entity_dict io_df by_entity k x :
  listed (get_flow_entity_dict io_df by_entity) k x
  ↔ (x, k) ∈ index_tuples io_df by_entity.
Proof.
  unfold listed. rewrite get_flow_entity_dict_lookup, <- elem_of_connected.
  destruct (connected (index_tuples io_df by_entity) k) as [|p c].
  - split; [by intros (? & ? & ?) | by intros ?%elem_of_nil].
  - split; [by intros (? & [= <-] & ?) | by eauto].
Qed.

(** X7: the dictionary built from an adjacency table lists an entity under
    a flow exactly when the table has a cell that is not empty in a row of
    that entity and a column of that flow: no connection of the table is
    lost and none is made up. *)
Theorem flow_entity_dict_lists_the_connections (io_df : DataFrame)
    (f e : string) :
  listed (get_flow_entity_dict io_df false) f e ↔ connects io_df e f.
Proof.
  rewrite listed_flow_entity_dict. unfold index_tuples. simpl.
  apply elem_of_stack_index.
Qed.

(** X8: the two settings of [by_entity] give the two directions of the same
    relation: an entity is listed under a flow in the dictionary by flow
    exactly when the flow is listed under the entity in the dictionary by
    entity. *)
Theorem flow_entity_dict_by_entity_is_converse (io_df : DataFrame)
    (f e : string) :
  listed (get_flow_entity_dict io_df true) e f
  ↔ listed (get_flow_entity_dict io_df false) f e.
Proof.
  rewrite !listed_flow_entity_dict. unfold index_tuples. simpl.
  by rewrite !elem_of_stack_index, connects_transpose.
Qed.

Example flow_entity_dict_by_entity_sample :
  get_flow_entity_dict System.FiE_df true
  = {[ "conv_elec_pv" := ["sun"]; "dem_elec" := ["elec"] ]}.
Proof. by vm_compute. Qed.

Lemma zip_functional {A B} (l : list A) (k : list B) a b1 b2 :
  NoDup l → (a, b1) ∈ zip l k → (a, b2) ∈ zip l k → b1 = b2.
Proof.
  intros Hnd (i & ? & ? & [= <- <-] & Hi & Hb1)%elem_of_lookup_zip_with
    (j & ? & ? & [= <- <-] & Hj & Hb2)%elem_of_lookup_zip_with.
  assert (i = j) as -> by by eapply NoDup_lookup.
  congruence.
Qed.

Lemma NoDup_stack_index io_df :
  NoDup (df_index io_df) → NoDup (df_columns io_df) →
  NoDup (stack_index io_df).
Proof.
  intros Hrows Hcols. unfold stack_index. apply NoDup_bind.
  - intros [r1 cells1] [r2 cells2] [r c] Hin1 Hin2 Hy1 Hy2.
    apply list_elem_of_bind in Hy1 as ([c1 v1] & Hy1 & _).
    apply list_elem_of_bind in Hy2 as ([c2 v2] & Hy2 & _).
    destruct (isna v1); [by apply elem_of_nil in Hy1|].
    destruct (isna v2); [by apply elem_of_nil in Hy2|].
    apply list_elem_of_singleton in Hy1 as [= -> ->].
    apply list_elem_of_singleton in Hy2 as [= -> ->].
    f_equal. exact (zip_functional _ _ _ _ _ Hrows Hin1 Hin2).
  - intros [r cells] _. apply NoDup_bind.
    + intros [c1 v1] [c2 v2] [r' c] Hin1 Hin2 Hy1 Hy2.
      destruct (isna v1); [by apply elem_of_nil in Hy1|].
      destruct (isna v2); [by apply elem_of_nil in Hy2|].
      apply list_elem_of_singleton in Hy1 as [= -> ->].
      apply list_elem_of_singleton in Hy2 as [= ->].
      f_equal. exact (zip_functional _ _ _ _ _ Hcols Hin1 Hin2).
    + intros [c v] _. destruct (isna v); [constructor | apply NoDup_singleton].
    + by apply NoDup_zip_l.
  - by apply NoDup_zip_l.
Qed.

(** X9: when no two rows and no two columns of the table carry the same
    label, no list of the dictionary names an entry twice, in either
    setting of [by_entity]. *)
Theorem flow_entity_dict_lists_without_repeats (io_df : DataFrame)
    (by_entity : bool) (k : string) (l : list string) :
  NoDup (df_index io_df) → NoDup (df_columns io_df) →
  get_flow_entity_dict io_df by_entity !! k = Some l →
  NoDup l.
Proof.
  intros Hrows Hcols. rewrite get_flow_entity_dict_lookup.
  assert (NoDup (connected (index_tuples io_df by_entity) k)) as Hnd.
  { unfold connected. apply NoDup_fmap_2_strong.
    - intros [x1 k1] [x2 k2] [Hk1 _]%list_elem_of_filter
        [Hk2 _]%list_elem_of_filter. simpl in *. congruence.
    - apply NoDup_filter. unfold index_tuples.
      destruct by_entity; simpl; by apply NoDup_stack_index. }
  destruct (connected _ k); [done|]. by intros [= <-].
Qed.

Lemma flow_entity_dict_lists_without_repeats_witness :
  NoDup ["conv_pass_car"; "dem_elec"].
Proof.
  apply (flow_entity_dict_lists_without_repeats Transport.FiE_df false "elec").
  - compute_done.
  - compute_done.
  - reflexivity.
Defined.

(** ** More on merging *)

Section merge_facts.
Context {A : Type}.
Implicit Types (d out : gmap string (list A)).

Lemma merge_dicts_Ok dict1 dict2 :
  merge_dicts dict1 dict2
  = Ok (union_with (λ l1 l2 : list A, Some (l1 ++ l2)) dict1 dict2).
Proof.
  destruct (merge_dicts_lookup dict1 dict2) as (out & -> & Hout).
  f_equal. apply map_eq. intros k. by rewrite Hout, lookup_union_with.
Qed.

End merge_facts.

(** X10: the keys of a merged dictionary are the keys of the two inputs,
    a key of one input only keeps its list, and merging with the empty
    dictionary on either side gives the other dictionary back. *)
Theorem merge_dicts_keys_and_units {A : Type}
    (dict1 dict2 : gmap string (list A)) :
  ∃ out,
    merge_dicts dict1 dict2 = Ok out
    ∧ dom out = dom dict1 ∪ dom dict2
    ∧ (∀ k, dict2 !! k = None → out !! k = dict1 !! k)
    ∧ (∀ k, dict1 !! k = None → out !! k = dict2 !! k)
    ∧ merge_dicts dict1 ∅ = Ok dict1
    ∧ merge_dicts ∅ dict2 = Ok dict2.
Proof.
  eexists. split; [apply merge_dicts_Ok|]. split; [|split; [|split; [|split]]].
  - apply set_eq. intros k.
    rewrite elem_of_union, !elem_of_dom, lookup_union_with.
    destruct (dict1 !! k), (dict2 !! k); simpl;
      rewrite ?is_Some_alt; naive_solver.
  - intros k Hk. rewrite lookup_union_with, Hk. by destruct (dict1 !! k).
  - intros k Hk. rewrite lookup_union_with, Hk. by destruct (dict2 !! k).
  - rewrite merge_dicts_Ok. f_equal. apply map_eq. intros k.
    rewrite lookup_union_with, lookup_empty. by destruct (dict1 !! k).
  - rewrite merge_dicts_Ok. f_equal. apply map_eq. intros k.
    rewrite lookup_union_with, lookup_empty. by destruct (dict2 !! k).
Qed.

(** X11: merging is associative: three dictionaries merged two at a time
    give the same dictionary whichever pair is merged first. *)
Theorem merge_dicts_assoc {A : Type} (dict1 dict2 dict3 : gmap string (list A)) :
  (merge_dicts dict1 dict2 ≫= λ d12, merge_dicts d12 dict3)
  = (merge_dicts dict2 dict3 ≫= λ d23, merge_dicts dict1 d23).
Proof.
  rewrite !merge_dicts_Ok. simpl. rewrite !merge_dicts_Ok. f_equal.
  apply map_eq. intros k. rewrite !lookup_union_with.
  destruct (dict1 !! k), (dict2 !! k), (dict3 !! k); simpl; try done.
  by rewrite app_assoc.
Qed.

(** X12: merging keeps a dictionary free of empty lists: when no key of
    either input maps to an empty list, no key of the result does; and an
    entry is listed under a key of the result exactly when it is listed
    under that key in one of the inputs. *)
Theorem merge_dicts_lists_both_sides {A : Type}
    (dict1 dict2 out : gmap string (list A)) :
  merge_dicts dict1 dict2 = Ok out →
  (∀ k e, listed out k e ↔ listed dict1 k e ∨ listed dict2 k e)
  ∧ ((∀ k l, dict1 !! k = Some l → l ≠ []) →
     (∀ k l, dict2 !! k = Some l → l ≠ []) →
     ∀ k l, out !! k = Some l → l ≠ []).
Proof.
  rewrite merge_dicts_Ok. intros [= <-]. split.
  - intros k e. unfold listed. rewrite lookup_union_with.
    destruct (dict1 !! k) as [l1|], (dict2 !! k) as [l2|]; simpl.
    + split.
      * intros (l & [= <-] & [?|?]%elem_of_app); [left|right]; by eauto.
      * intros [(l & [= <-] & ?)|(l & [= <-] & ?)];
          (eexists; split; [done|]); apply elem_of_app; by auto.
    + split; [by auto|]. by intros [?|(? & ? & ?)].
    + split; [by auto|]. by intros [(? & ? & ?)|?].
    + split; [by intros (? & ? & ?)|]. by intros [(? & ? & ?)|(? & ? & ?)].
  - intros H1 H2 k l. rewrite lookup_union_with.
    destruct (dict1 !! k) as [l1|] eqn:E1, (dict2 !! k) as [l2|] eqn:E2;
      simpl; intros [= <-].
    + intros [Hl1 _]%app_eq_nil. by apply (H1 k l1).
    + by apply (H1 k l1).
    + by apply (H2 k l2).
Qed.

Lemma merge_dicts_lists_both_sides_witness :
  ∃ out,
    merge_dicts (get_flow_entity_dict System.FiE_df false)
                (get_flow_entity_dict System.FoE_df false) = Ok out
    ∧ listed out "elec" "conv_elec_pv".
Proof.
  destruct (merge_dicts (get_flow_entity_dict System.FiE_df false)
              (get_flow_entity_dict System.FoE_df false)) as [out|] eqn:Hout;
    [|by vm_compute in Hout].
  exists out. split; [reflexivity|].
  apply (merge_dicts_lists_both_sides _ _ _ Hout). right.
  exists ["conv_elec_pv"]. split; [by vm_compute | by left].
Defined.

(** ** What the constructor stores *)

Lemma elem_of_unique_2 x l : x ∈ l → x ∈ unique l.
Proof.
  induction l as [|y l IH]; simpl; [done|].
  intros [->|Hin]%elem_of_cons; [by left|].
  destruct (decide (x = y)) as [->|Hne]; [by left|].
  right. apply list_elem_of_filter. by auto.
Qed.

Lemma to_dict_lookup `{Countable K} (key : ParamRow → K) entity_id
    (entity_df : list ParamRow) (k : K) :
  to_dict key entity_id entity_df !! k
  = (λ r, cell r entity_id) <$> last (filter (λ r, key r = k) entity_df).
Proof.
  unfold to_dict.
  induction entity_df as [|r entity_df IH] using rev_ind; [done|].
  rewrite foldl_snoc, filter_app, filter_cons, filter_nil.
  destruct (decide (key r = k)) as [<-|Hne].
  - by rewrite lookup_insert_eq, last_snoc.
  - by rewrite lookup_insert_ne, app_nil_r.
Qed.

Lemma set_data_type_fields data_type entity_id sheet_df p0 p :
  set_data_type data_type entity_id
    (filter (λ r, row_Type r = data_type) (rows sheet_df)) p0 = Some p →
  let tbl `{Countable K} (name : string) (key : ParamRow → K)
        (old : option (gmap K value)) :=
    if decide (data_type = name)
    then Some (to_dict key entity_id
                 (filter (λ r, row_Type r = name) (rows sheet_df)))
    else old in
  constant p = tbl "constant" row_Parameter (constant p0)
  ∧ configuration p = tbl "configuration" row_Parameter (configuration p0)
  ∧ constant_fxe p
    = tbl "constant_fxe" (λ r, (row_Parameter r, row_Flow r)) (constant_fxe p0)
  ∧ configuration_fxe p
    = tbl "configuration_fxe" (λ r, (row_Parameter r, row_Flow r))
        (configuration_fxe p0)
  ∧ annual p = tbl "annual" (λ r, (row_Parameter r, row_Year r)) (annual p0)
  ∧ annual_fxe p
    = tbl "annual_fxe" (λ r, (row_Parameter r, row_Flow r, row_Year r))
        (annual_fxe p0).
Proof.
  intros Hset. cbv zeta. unfold set_data_type in Hset.
  repeat
    (match type of Hset with
     | context [decide (data_type = ?n)] =>
         destruct (decide (data_type = n)) as [->|?]
     end;
     [injection Hset as <-; simpl; repeat split; reflexivity|]).
  discriminate.
Qed.

Lemma read_types_Raise group entity_id sheet_df exn types :
  foldl (λ acc data_type,
      p ← acc;
      let entity_df :=
        filter (λ r, row_Type r = data_type) (rows sheet_df) in
      match set_data_type data_type entity_id entity_df p with
      | Some p' => Ok p'
      | None =>
          Raise (ValueError ["Invalid Data Type"; data_type; "in"; group;
                             entity_id])
      end) (Raise exn) types = Raise exn.
Proof. induction types as [|? ? IH]; [done|]. simpl. apply IH. Qed.

Section field.
Context `{Countable K} (sel : entity_params → option (gmap K value))
        (name : string) (key : ParamRow → K).
Hypothesis Hsel : ∀ data_type entity_id sheet_df p0 p,
  set_data_type data_type entity_id
    (filter (λ r, row_Type r = data_type) (rows sheet_df)) p0 = Some p →
  sel p = if decide (data_type = name)
          then Some (to_dict key entity_id
                       (filter (λ r, row_Type r = name) (rows sheet_df)))
          else sel p0.
Hypothesis Hnone : sel no_params = None.

Lemma read_types_field group entity_id sheet_df types p0 p :
  foldl (λ acc data_type,
      p ← acc;
      let entity_df :=
        filter (λ r, row_Type r = data_type) (rows sheet_df) in
      match set_data_type data_type entity_id entity_df p with
      | Some p' => Ok p'
      | None =>
          Raise (ValueError ["Invalid Data Type"; data_type; "in"; group;
                             entity_id])
      end) (Ok p0) types = Ok p →
  sel p = if decide (name ∈ types)
          then Some (to_dict key entity_id
                       (filter (λ r, row_Type r = name) (rows sheet_df)))
          else sel p0.
Proof.
  revert p0. induction types as [|dt types IH]; intros p0 Hfold.
  - simpl in Hfold. injection Hfold as <-.
    rewrite decide_False; [done | apply not_elem_of_nil].
  - simpl in Hfold.
    destruct (set_data_type dt entity_id _ p0) as [p'|] eqn:Hset;
      [|by rewrite read_types_Raise in Hfold].
    rewrite (IH _ Hfold), (Hsel _ _ _ _ _ Hset).
    destruct (decide (name ∈ types)) as [Hin|Hin].
    + rewrite decide_True; [done | by right].
    + destruct (decide (dt = name)) as [->|Hne].
      * rewrite decide_True; [done | by left].
      * rewrite decide_False; [done|].
        intros [?|?]%elem_of_cons; congruence.
Qed.

Lemma read_entity_field group entity_id sheet_df p :
  read_entity group entity_id sheet_df = Ok p →
  sel p = table_of name key entity_id sheet_df.
Proof.
  unfold read_entity, table_of. intros Hp.
  rewrite (read_types_field _ _ _ _ _ _ Hp), Hnone.
  destruct (decide (name ∈ row_Type <$> rows sheet_df)) as [Hin|Hin].
  - rewrite decide_True; [done | by apply elem_of_unique_2].
  - rewrite decide_False; [done|]. by intros ?%elem_of_unique.
Qed.
End field.

(** The six tables of an entity that was read from a sheet. *)
Lemma read_entity_tables group entity_id sheet_df p :
  read_entity group entity_id sheet_df = Ok p →
  constant p = table_of "constant" row_Parameter entity_id sheet_df
  ∧ configuration p = table_of "configuration" row_Parameter entity_id sheet_df
  ∧ constant_fxe p
    = table_of "constant_fxe" (λ r, (row_Parameter r, row_Flow r)) entity_id
        sheet_df
  ∧ configuration_fxe p
    = table_of "configuration_fxe" (λ r, (row_Parameter r, row_Flow r))
        entity_id sheet_df
  ∧ annual p
    = table_of "annual" (λ r, (row_Parameter r, row_Year r)) entity_id sheet_df
  ∧ annual_fxe p
    = table_of "annual_fxe" (λ r, (row_Parameter r, row_Flow r, row_Year r))
        entity_id sheet_df.
Proof.
  intros Hp. repeat split.
  all: apply (read_entity_field _ _ _) with (group := group); [|done|done].
  all: intros dt e sh p0 p' Hset;
    destruct (set_data_type_fields _ _ _ _ _ Hset) as (?&?&?&?&?&?); done.
Qed.

(** The object that the table of a data type holds under a key: the cell of
    the last row of the type with the key. *)
Lemma table_of_lookup `{Countable K} data_type (key : ParamRow → K) entity_id
    sheet_df (k : K) :
  (t ← table_of data_type key entity_id sheet_df; t !! k)
  = (λ r, cell r entity_id) <$> last_row data_type key k sheet_df.
Proof.
  unfold table_of, last_row.
  destruct (decide (data_type ∈ row_Type <$> rows sheet_df)) as [Hin|Hin];
    simpl.
  - apply to_dict_lookup.
  - replace (filter (λ r, row_Type r = data_type) (rows sheet_df))
      with (@nil ParamRow); [done|].
    symmetry. apply (proj1 (last_None _)).
    destruct (last _) as [r|] eqn:Hlast; [|done].
    apply last_Some_elem_of, list_elem_of_filter in Hlast as [Hty Hr].
    destruct Hin. apply list_elem_of_fmap. by exists r.
Qed.

Lemma read_sheet_content group sheet_df cols ps0 ps :
  foldl (read_column group sheet_df) (Ok ps0) cols = Ok ps →
  ∀ e,
    (e ∈ cols →
     ps0 !! e = None
     ∧ ∃ p, read_entity group e sheet_df = Ok p ∧ ps !! e = Some p)
    ∧ (e ∉ cols → ps !! e = ps0 !! e).
Proof.
  revert ps0. induction cols as [|c cols IH]; intros ps0 Hfold e.
  - simpl in Hfold. injection Hfold as <-.
    split; [by intros ?%elem_of_nil | done].
  - simpl in Hfold.
    destruct (ps0 !! c) as [q|] eqn:Hc.
    { rewrite bool_decide_eq_true_2 in Hfold by by eexists.
      by rewrite sheet_loop_Raise in Hfold. }
    rewrite bool_decide_eq_false_2 in Hfold by by intros [? ?].
    destruct (read_entity group c sheet_df) as [p|exn] eqn:Hread;
      simpl in Hfold; [|by rewrite sheet_loop_Raise in Hfold].
    destruct (IH _ Hfold e) as [IHin IHout].
    destruct (IH _ Hfold c) as [IHcin IHcout].
    split.
    + intros [->|Hin]%elem_of_cons.
      * split; [done|]. exists p. split; [done|].
        destruct (decide (c ∈ cols)) as [Hcin|Hcout].
        -- destruct (IHcin Hcin) as [Hnone _].
           by rewrite lookup_insert_eq in Hnone.
        -- by rewrite (IHcout Hcout), lookup_insert_eq.
      * destruct (IHin Hin) as [Hnone Hp]. split; [|done].
        destruct (decide (c = e)) as [->|Hne]; [done|].
        by rewrite lookup_insert_ne in Hnone.
    + intros [Hne Hout]%not_elem_of_cons.
      rewrite (IHout Hout). by rewrite lookup_insert_ne.
Qed.

(** The store after the loop over the sheets: every column of a parameter
    sheet has its entry, read from that sheet; nothing else was added and
    nothing was replaced; the adjacency sheets are kept under their names. *)
Lemma workbook_content excel_file groups s0 s :
  foldl (read_group excel_file) (Ok s0) groups = Ok s →
  (∀ g e, g ∈ parameter_sheets_of groups →
          e ∈ entity_columns (read_excel excel_file g) →
          params s0 !! e = None
          ∧ ∃ p, read_entity g e (read_excel excel_file g) = Ok p
                 ∧ params s !! e = Some p)
  ∧ (∀ e, is_Some (params s !! e) →
          is_Some (params s0 !! e)
          ∨ ∃ g, g ∈ parameter_sheets_of groups
                 ∧ e ∈ entity_columns (read_excel excel_file g))
  ∧ (∀ e p, params s0 !! e = Some p → params s !! e = Some p)
  ∧ (∀ k, fxe s !! k
          = if decide (k ∈ ["FiE"; "FoE"] ∧ k ∈ groups)
            then Some (read_excel_index_col0 excel_file k)
            else fxe s0 !! k).
Proof.
  revert s0. induction groups as [|g groups IH]; intros s0 Hfold.
  - simpl in Hfold. injection Hfold as <-. split; [|split; [|split]].
    + by intros g e ?%elem_of_nil.
    + by left.
    + done.
    + intros k. rewrite decide_False; [done|]. by intros [_ ?%elem_of_nil].
  - simpl in Hfold. unfold parameter_sheets_of. rewrite filter_cons.
    destruct (decide (g ∉ ["FiE"; "FoE"])) as [Hg|Hg].
    + rewrite bool_decide_eq_false_2 in Hfold by done.
      destruct (read_sheet g (read_excel excel_file g) (params s0))
        as [ps1|exn] eqn:Hsheet; simpl in Hfold;
        [|by rewrite workbook_loop_Raise in Hfold].
      destruct (IH _ Hfold) as (IHa & IHb & IHc & IHd). simpl in *.
      pose proof (read_sheet_content _ _ _ _ _ Hsheet) as Hcontent.
      split; [|split; [|split]].
      * intros g' e [->|Hg']%elem_of_cons He.
        -- destruct (Hcontent e) as [Hin _].
           destruct (Hin He) as (Hnone & p & Hread & Hp).
           split; [done|]. exists p. split; [done|]. by apply IHc.
        -- destruct (IHa g' e Hg' He) as (Hnone & p & Hread & Hp).
           split; [|by exists p].
           destruct (Hcontent e) as [Hin Hout].
           destruct (decide (e ∈ entity_columns (read_excel excel_file g)))
             as [Hcol|Hcol].
           ++ destruct (Hin Hcol) as (_ & ? & _ & Hsome). congruence.
           ++ by rewrite <- (Hout Hcol).
      * intros e He. destruct (IHb e He) as [Hs1|(g' & Hg' & Hcol)].
        -- destruct (Hcontent e) as [_ Hout].
           destruct (decide (e ∈ entity_columns (read_excel excel_file g)))
             as [Hcol|Hcol].
           ++ right. exists g. split; [by left | done].
           ++ left. by rewrite <- (Hout Hcol).
        -- right. exists g'. split; [by right | done].
      * intros e p He. apply IHc. destruct (Hcontent e) as [Hin Hout].
        destruct (decide (e ∈ entity_columns (read_excel excel_file g)))
          as [Hcol|Hcol].
        -- destruct (Hin Hcol) as (Hnone & _). congruence.
        -- by rewrite (Hout Hcol).
      * intros k. rewrite IHd.
        destruct (decide (k ∈ ["FiE"; "FoE"] ∧ k ∈ groups)) as [[Hk Hin]|Hk].
        -- rewrite decide_True; [done|]. split; [done | by right].
        -- destruct (decide (k ∈ ["FiE"; "FoE"] ∧ k ∈ g :: groups))
             as [[Hk1 [->|Hk2]%elem_of_cons]|_]; try done.
           destruct Hk. by split.
    + apply dec_stable in Hg.
      rewrite bool_decide_eq_true_2 in Hfold by done.
      destruct (IH _ Hfold) as (IHa & IHb & IHc & IHd). simpl in *.
      split; [done|]. split; [done|]. split; [done|].
      intros k. rewrite IHd.
      destruct (decide (k ∈ ["FiE"; "FoE"] ∧ k ∈ groups)) as [[Hk Hin]|Hk].
      * rewrite decide_True; [done|]. split; [done | by right].
      * destruct (decide (g = k)) as [->|Hne].
        -- rewrite lookup_insert_eq, decide_True; [done|].
           split; [done | by left].
        -- rewrite lookup_insert_ne by done.
           rewrite decide_False; [done|].
           intros [Hk1 [->|Hk2]%elem_of_cons]; [done|]. destruct Hk. by split.
Qed.

Lemma first_repeat_NoDup seen cols :
  NoDup cols.*2 → (∀ e, e ∈ cols.*2 → e ∉ seen) →
  first_repeat seen cols = None.
Proof.
  revert seen. induction cols as [|[g e] cols IH]; intros seen; simpl;
    [done|].
  intros [Hnotin Hnd]%NoDup_cons Hseen.
  rewrite decide_False by (apply Hseen; by left).
  apply IH; [done|]. intros e' He' [->%elem_of_singleton|Hin]%elem_of_union.
  - done.
  - apply (Hseen e'); [by right | done].
Qed.

Lemma elem_of_parameter_columns excel_file groups e :
  e ∈ (columns_of excel_file groups).*2
  ↔ ∃ g, g ∈ parameter_sheets_of groups
         ∧ e ∈ entity_columns (read_excel excel_file g).
Proof.
  unfold columns_of. rewrite list_elem_of_fmap. split.
  - intros ([g' e'] & -> & (g & Hin & Hg)%list_elem_of_bind).
    apply list_elem_of_fmap in Hin as (e & [= -> ->] & He). by exists g.
  - intros (g & Hg & He). exists (g, e). split; [done|].
    apply list_elem_of_bind. exists g. split; [|done].
    apply list_elem_of_fmap. by exists e.
Qed.

(** X13: a store that the constructor returns has exactly one entry for
    every entity column of the parameter sheets, no identifier heads two of
    those columns, and its adjacency tables are the sheets named [FiE] and
    [FoE] that the workbook has, as read with the first column as index. *)
Theorem constructed_store_has_the_columns (excel_file : ExcelFile)
    (self : DataHandler) :
  DataHandler_init excel_file = Ok self →
  NoDup (parameter_columns excel_file).*2
  ∧ dom (params self) = list_to_set (parameter_columns excel_file).*2
  ∧ (∀ k, fxe self !! k
          = if decide (k ∈ ["FiE"; "FoE"] ∧ k ∈ sheet_names excel_file)
            then Some (read_excel_index_col0 excel_file k)
            else None).
Proof.
  intros Hinit. split; [|split].
  - pose proof (workbook_loop_outcome excel_file (sheet_names excel_file)
                  {| fxe := ∅; params := ∅ |}) as Hout.
    simpl in Hout. fold (DataHandler_init excel_file) in Hout.
    fold (parameter_columns excel_file) in Hout.
    rewrite Hinit in Hout. destruct Hout as [[(? & ? & ? & [=]) _]|Hout].
    destruct (first_repeat _ _) as [[g e]|] eqn:Hfirst; [done|].
    by apply first_repeat_None in Hfirst.
  - destruct (workbook_content _ _ _ _ Hinit) as (Ha & Hb & _ & _).
    apply set_eq. intros e.
    rewrite elem_of_dom, elem_of_list_to_set.
    unfold parameter_columns. rewrite elem_of_parameter_columns. split.
    + intros He. destruct (Hb e He) as [[? Hempty]|?]; [|done].
      simpl in Hempty. by rewrite lookup_empty in Hempty.
    + intros (g & Hg & He). destruct (Ha g e Hg He) as (_ & p & _ & Hp).
      by exists p.
  - destruct (workbook_content _ _ _ _ Hinit) as (_ & _ & _ & Hd).
    intros k. rewrite Hd. simpl. by rewrite lookup_empty.
Qed.

Lemma constructed_store_has_the_columns_witness :
  ∃ self,
    DataHandler_init
      {| sheet_names := ["FoE"; "tech"];
         read_excel_index_col0 := λ _, Workbooks.no_adjacency;
         read_excel := λ _, Workbooks.tech |} = Ok self
    ∧ dom (params self) = {[ "conv_elec_pv"; "conv_elec_wind" ]}
    ∧ fxe self !! "FoE" = Some Workbooks.no_adjacency
    ∧ fxe self !! "FiE" = None.
Proof.
  destruct (DataHandler_init _) as [self|] eqn:Hinit; [|by vm_compute in Hinit].
  exists self. split; [reflexivity|].
  destruct (constructed_store_has_the_columns _ _ Hinit) as (_ & Hdom & Hfxe).
  split; [|split].
  - rewrite Hdom. by vm_compute.
  - rewrite Hfxe. by vm_compute.
  - rewrite Hfxe. by vm_compute.
Defined.

(** X14: the constructor returns a store whenever every row of the
    parameter sheets has a recognised data type and no identifier heads two
    entity columns. *)
Theorem constructor_returns_on_clean_workbook (excel_file : ExcelFile) :
  recognised_types excel_file (sheet_names excel_file) →
  NoDup (parameter_columns excel_file).*2 →
  ∃ self, DataHandler_init excel_file = Ok self.
Proof.
  intros Hrec Hnd.
  pose proof (workbook_loop_outcome excel_file (sheet_names excel_file)
                {| fxe := ∅; params := ∅ |}) as Hout.
  simpl in Hout. fold (DataHandler_init excel_file) in Hout.
  fold (parameter_columns excel_file) in Hout.
  destruct Hout as [[_ Hnot]|Hout]; [done|].
  rewrite first_repeat_NoDup in Hout; [done..|].
  intros e _. rewrite dom_empty_L. apply not_elem_of_empty.
Qed.

Lemma constructor_returns_on_clean_workbook_witness :
  ∃ self,
    DataHandler_init
      {| sheet_names := ["FoE"; "tech"];
         read_excel_index_col0 := λ _, Workbooks.no_adjacency;
         read_excel := λ _, Workbooks.tech |} = Ok self.
Proof.
  apply constructor_returns_on_clean_workbook.
  - intros g Hg. simpl. repeat constructor; compute_done.
  - compute_done.
Defined.

(** X15: what the constructor stores can be read back. For an entity column
    of a parameter sheet, the object that the built store holds in each of
    the six tables under a key is the cell of that column on the last row of
    the sheet that has the data type of the table and that key; it holds
    nothing under the key when the sheet has no such row. *)
Theorem constructed_store_holds_the_last_row (excel_file : ExcelFile)
    (self : DataHandler) (g entity_id : string) :
  DataHandler_init excel_file = Ok self →
  g ∈ parameter_sheets_of (sheet_names excel_file) →
  entity_id ∈ entity_columns (read_excel excel_file g) →
  let sheet_df := read_excel excel_file g in
  let from_row (r : option ParamRow) := (λ r, cell r entity_id) <$> r in
  (∀ parameter,
     stored self constant entity_id parameter
     = from_row (last_row "constant" row_Parameter parameter sheet_df))
  ∧ (∀ parameter,
       stored self configuration entity_id parameter
       = from_row (last_row "configuration" row_Parameter parameter sheet_df))
  ∧ (∀ parameter flow,
       stored self constant_fxe entity_id (parameter, flow)
       = from_row (last_row "constant_fxe"
                     (λ r, (row_Parameter r, row_Flow r)) (parameter, flow)
                     sheet_df))
  ∧ (∀ parameter flow,
       stored self configuration_fxe entity_id (parameter, flow)
       = from_row (last_row "configuration_fxe"
                     (λ r, (row_Parameter r, row_Flow r)) (parameter, flow)
                     sheet_df))
  ∧ (∀ parameter year,
       stored self annual entity_id (parameter, year)
       = from_row (last_row "annual"
                     (λ r, (row_Parameter r, row_Year r)) (parameter, year)
                     sheet_df))
  ∧ (∀ parameter flow year,
       stored self annual_fxe entity_id (parameter, flow, year)
       = from_row (last_row "annual_fxe"
                     (λ r, (row_Parameter r, row_Flow r, row_Year r))
                     (parameter, flow, year) sheet_df)).
Proof.
  intros Hinit Hg He. cbv zeta.
  destruct (workbook_content _ _ _ _ Hinit) as (Ha & _).
  destruct (Ha g entity_id Hg He) as (_ & p & Hread & Hp).
  destruct (read_entity_tables _ _ _ _ Hread)
    as (Hc & Hcnf & Hcf & Hcnff & Han & Hanf).
  unfold stored, record. rewrite Hp. simpl.
  rewrite Hc, Hcnf, Hcf, Hcnff, Han, Hanf.
  repeat split; intros; apply table_of_lookup.
Qed.

Lemma constructed_store_holds_the_last_row_witness :
  ∃ self,
    DataHandler_init
      {| sheet_names := ["FoE"; "tech"];
         read_excel_index_col0 := λ _, Workbooks.no_adjacency;
         read_excel := λ _, Workbooks.tech |} = Ok self
    ∧ stored self constant "conv_elec_wind" "lifetime" = Some (VNum 20)
    ∧ stored self annual "conv_elec_wind" ("lifetime", 2020%Z) = None.
Proof.
  destruct (DataHandler_init _) as [self|] eqn:Hinit; [|by vm_compute in Hinit].
  exists self. split; [reflexivity|].
  destruct (constructed_store_holds_the_last_row _ _ "tech" "conv_elec_wind"
              Hinit) as (Hconst & _ & _ & _ & Hannual & _).
  - compute_done.
  - compute_done.
  - split.
    + rewrite Hconst. by vm_compute.
    + rewrite Hannual. by vm_compute.
Defined.

Lemma set_data_type_recognised data_type entity_id entity_df p :
  recognised data_type →
  is_Some (set_data_type data_type entity_id entity_df p).
Proof.
  unfold recognised, set_data_type. rewrite !elem_of_cons, elem_of_nil.
  intros Hrec. repeat case_decide; try by eexists. tauto.
Qed.

Lemma filter_unique (P : string → Prop) `{!∀ x, Decision (P x)} l :
  head (filter P (unique l)) = head (filter P l).
Proof.
  induction l as [|x l IH]; simpl; [done|].
  rewrite !filter_cons. destruct (decide (P x)) as [HP|HP]; [done|].
  rewrite <- IH. f_equal. rewrite list_filter_filter.
  apply list_filter_iff. intros y. split; [tauto|].
  intros Hy. split; [done|]. by intros ->.
Qed.

(** Reading an entity stops at the first data type of the sheet, in row
    order, that is not recognised. *)
Lemma read_entity_first_unrecognised group entity_id sheet_df data_type :
  head (filter (λ t, ¬ recognised t) (row_Type <$> rows sheet_df))
  = Some data_type →
  read_entity group entity_id sheet_df
  = Raise (ValueError ["Invalid Data Type"; data_type; "in"; group;
                       entity_id]).
Proof.
  unfold read_entity. rewrite <- filter_unique.
  generalize (unique (row_Type <$> rows sheet_df)). generalize no_params.
  intros p0 types. revert p0.
  induction types as [|t types IH]; intros p0; [done|].
  rewrite filter_cons. simpl. destruct (decide (¬ recognised t)) as [Ht|Ht].
  - intros [= ->].
    destruct (set_data_type data_type entity_id _ p0) eqn:Hset.
    + destruct Ht. assert (is_Some (set_data_type data_type entity_id
        (filter (λ r, row_Type r = data_type) (rows sheet_df)) p0)) as Hs
        by by eexists.
      clear Hset. revert Hs. unfold set_data_type, recognised.
      rewrite !elem_of_cons. repeat case_decide; try tauto.
      by intros [? ?].
    + apply read_types_Raise.
  - apply dec_stable in Ht. intros Hhead.
    destruct (set_data_type_recognised t entity_id
                (filter (λ r, row_Type r = t) (rows sheet_df)) p0 Ht)
      as [p' ->].
    by apply IH.
Qed.

Lemma adjacency_sheets_loop excel_file groups s0 :
  Forall (λ g, g ∈ ["FiE"; "FoE"]) groups →
  ∃ s, foldl (read_group excel_file) (Ok s0) groups = Ok s
       ∧ params s = params s0.
Proof.
  revert s0. induction groups as [|g groups IH]; intros s0 Hall; simpl.
  - by exists s0.
  - apply Forall_cons in Hall as [Hg Hall].
    rewrite bool_decide_eq_true_2 by done.
    destruct (IH {| fxe := <[g := read_excel_index_col0 excel_file g]> (fxe s0);
                    params := params s0 |} Hall) as (s & Hs & Hparams).
    by exists s.
Qed.

(** X16: when the first parameter sheet of the workbook has a row whose
    data type is not recognised, the constructor raises the invalid-data-type
    [ValueError], which names the first such type in row order, the sheet,
    and the first entity column of the sheet. *)
Theorem invalid_data_type_is_reported (excel_file : ExcelFile)
    (adjacency rest cols : list string) (g entity_id data_type : string)
    (before after : list string) :
  sheet_names excel_file = adjacency ++ g :: rest →
  Forall (λ a, a ∈ ["FiE"; "FoE"]) adjacency →
  g ∉ ["FiE"; "FoE"] →
  entity_columns (read_excel excel_file g) = entity_id :: cols →
  row_Type <$> rows (read_excel excel_file g) = before ++ data_type :: after →
  Forall recognised before →
  ¬ recognised data_type →
  DataHandler_init excel_file
  = Raise (ValueError ["Invalid Data Type"; data_type; "in"; g; entity_id]).
Proof.
  intros Hnames Hadj Hg Hcols Htypes Hbefore Hdt.
  unfold DataHandler_init. rewrite Hnames, foldl_app.
  destruct (adjacency_sheets_loop excel_file adjacency
              {| fxe := ∅; params := ∅ |} Hadj) as (s & -> & Hparams).
  simpl. rewrite bool_decide_eq_false_2 by done.
  unfold read_sheet. rewrite Hcols. simpl.
  rewrite Hparams. simpl. rewrite lookup_empty.
  rewrite bool_decide_eq_false_2 by by intros [? ?].
  rewrite (read_entity_first_unrecognised _ _ _ data_type).
  - simpl. rewrite sheet_loop_Raise. simpl. apply workbook_loop_Raise.
  - rewrite Htypes, filter_app, filter_cons, decide_True by done.
    replace (filter (λ t, ¬ recognised t) before) with (@nil string); [done|].
    symmetry. clear -Hbefore.
    induction Hbefore as [|t before Ht _ IH]; [done|].
    rewrite filter_cons, decide_False; [done|]. by intros Hn.
Qed.

Lemma invalid_data_type_is_reported_witness :
  DataHandler_init (Workbooks.workbook Workbooks.tech_bad_type)
  = Raise (ValueError ["Invalid Data Type"; "yearly"; "in"; "tech";
                       "conv_elec_pv"]).
Proof.
  apply (invalid_data_type_is_reported
           (Workbooks.workbook Workbooks.tech_bad_type)
           ["FiE"] ["storage"] ["conv_elec_wind"] "tech" "conv_elec_pv"
           "yearly" ["constant"; "configuration"] []).
  - reflexivity.
  - repeat constructor.
  - compute_done.
  - reflexivity.
  - reflexivity.
  - repeat constructor; compute_done.
  - compute_done.
Defined.

(** ** The sets of the model *)

Lemma Set_within_domain F E pairs rel :
  Set_within F E pairs = Ok rel →
  rel = list_to_set pairs ∧ ∀ f e, (f, e) ∈ rel → f ∈ F ∧ e ∈ E.
Proof.
  unfold Set_within. case_bool_decide as Hall; [|done]. intros [= <-].
  split; [done|]. intros f e Hin%elem_of_list_to_set.
  rewrite Forall_forall in Hall. apply (Hall (f, e) Hin).
Qed.

Lemma init_sets_domains cnf m :
  _init_sets cnf = Ok m →
  (∀ f e, (f, e) ∈ model.FiE m → f ∈ model.F m ∧ e ∈ model.E m)
  ∧ (∀ f e, (f, e) ∈ model.FoE m → f ∈ model.F m ∧ e ∈ model.E m).
Proof.
  unfold _init_sets. intros Hm. inv_bind Hm. injection Hm as <-. simpl.
  repeat match goal with
  | H : Set_within _ _ _ = Ok _ |- _ => apply Set_within_domain in H as [_ H]
  end.
  by split.
Qed.

(** X17: in a model whose sets were built, a pair (flow, entity) is in the
    input relation exactly when the flow is one of the configured flows and
    the [FiE] sheet of the store has a cell that is not empty in a row of
    the entity and the column of the flow; likewise for the output relation
    and the [FoE] sheet. *)
Theorem relations_are_the_cells_of_the_sheets (cnf : Cnf) (m : ConcreteModel) :
  _init_sets cnf = Ok m →
  ∃ FiE_df FoE_df,
    fxe (DATA cnf) !! "FiE" = Some FiE_df
    ∧ fxe (DATA cnf) !! "FoE" = Some FoE_df
    ∧ (∀ f e, (f, e) ∈ model.FiE m ↔ f ∈ FLOWS cnf ∧ connects FiE_df e f)
    ∧ (∀ f e, (f, e) ∈ model.FoE m ↔ f ∈ FLOWS cnf ∧ connects FoE_df e f).
Proof.
  intros Hm.
  destruct (init_sets_relations cnf m Hm)
    as (FiE_df & FoE_df & Hi & Ho & Hin & Hout & _).
  apply init_sets_inv in Hm as (_ & _ & _ & _ & HF & _).
  exists FiE_df, FoE_df. split; [done|]. split; [done|]. split.
  - intros f e. by rewrite Hin, HF, elem_of_list_to_set, elem_of_stack_index.
  - intros f e. by rewrite Hout, HF, elem_of_list_to_set, elem_of_stack_index.
Qed.

Lemma relations_are_the_cells_of_the_sheets_witness :
  ∃ m, _init_sets System.cnf = Ok m
       ∧ ("sun", "conv_elec_pv") ∈ model.FiE m
       ∧ ("heat", "conv_elec_pv") ∉ model.FiE m.
Proof.
  destruct (_init_sets System.cnf) as [m|] eqn:Hm; [|by vm_compute in Hm].
  exists m. split; [reflexivity|].
  destruct (relations_are_the_cells_of_the_sheets _ _ Hm)
    as (FiE_df & FoE_df & Hi & _ & Hin & _).
  vm_compute in Hi. injection Hi as <-. split.
  - apply Hin. split; [compute_done|].
    exists 0, 1, [VNaN; VNum 1; VNaN], (VNum 1). by repeat split.
  - intros [Hflow _]%Hin. revert Hflow. compute_done.
Defined.

(** X18: the set initialisation does not go through with a dangling flow:
    when some configured flow has no cell that is not empty in its column of
    the [FiE] sheet, or of the [FoE] sheet, [_init_sets] raises, and so
    does [init_model]. *)
Theorem dangling_flow_stops_initialisation
    (expressions : Cnf → ConcreteModel → result unit) (cnf : Cnf)
    (sheet f : string) (io_df : DataFrame) :
  sheet ∈ ["FiE"; "FoE"] →
  fxe (DATA cnf) !! sheet = Some io_df →
  f ∈ FLOWS cnf →
  (∀ e, ¬ connects io_df e f) →
  raises (_init_sets cnf) ∧ raises (init_model expressions cnf).
Proof.
  intros Hsheet Hdf Hf Hnone.
  assert (raises (_init_sets cnf)) as Hraise.
  { destruct (_init_sets cnf) as [m|] eqn:Hm; [|done]. exfalso.
    destruct (init_sets_relations cnf m Hm)
      as (FiE_df & FoE_df & Hi & Ho & Hin & Hout & Hsomein & Hsomeout).
    apply init_sets_inv in Hm as (_ & _ & _ & _ & HF & _).
    assert (f ∈ model.F m) as HfF by by rewrite HF, elem_of_list_to_set.
    apply elem_of_cons in Hsheet as [->|[->|[]%elem_of_nil]%elem_of_cons].
    - destruct (Hsomein f HfF) as [e He]. apply Hin in He as [_ He].
      apply elem_of_stack_index in He. apply (Hnone e). congruence.
    - destruct (Hsomeout f HfF) as [e He]. apply Hout in He as [_ He].
      apply elem_of_stack_index in He. apply (Hnone e). congruence. }
  split; [done|]. unfold init_model.
  by destruct (_init_sets cnf).
Qed.

Lemma dangling_flow_stops_initialisation_witness :
  raises (_init_sets
            {| YEARS := YEARS System.cnf; DAYS := DAYS System.cnf;
               HOURS := HOURS System.cnf; ENTITIES := ENTITIES System.cnf;
               FLOWS := ["elec"; "sun"; "heat"]; DATA := System.data |}).
Proof.
  apply (dangling_flow_stops_initialisation System.expressions _ "FiE" "heat"
           System.FiE_df).
  - compute_done.
  - reflexivity.
  - compute_done.
  - intros e (i & j & cells & v & Hi & Hcells & Hj & Hv & Hna).
    destruct j as [|[|[|j]]]; try discriminate.
    destruct i as [|[|i]]; try discriminate;
      injection Hcells as <-; injection Hv as <-; done.
Defined.

(** X19: the sets of a model that [_init_sets] returns are nested as the
    later steps assume: the capacity-enabled entities are processes, the
    processes are entities, an entity is a process exactly when its
    identifier does not start with [dem_], and every pair of the two
    relations joins a flow of [F] with an entity of [E]. *)
Theorem model_sets_are_nested (cnf : Cnf) (m : ConcreteModel) :
  _init_sets cnf = Ok m →
  model.Caps m ⊆ model.Pros m
  ∧ model.Pros m ⊆ model.E m
  ∧ (∀ e, e ∈ model.E m →
          (e ∈ model.Pros m ↔ String.prefix "dem_" e = false))
  ∧ (∀ f e, (f, e) ∈ model.FiE m → f ∈ model.F m ∧ e ∈ model.E m)
  ∧ (∀ f e, (f, e) ∈ model.FoE m → f ∈ model.F m ∧ e ∈ model.E m).
Proof.
  intros Hm. destruct (init_sets_domains cnf m Hm) as [Hin Hout].
  apply init_sets_inv in Hm as (_ & _ & _ & HE & _ & HPros & HCaps).
  split; [|split; [|split; [|split]]]; try done.
  - intros e He.
    by apply (proj1 (build_cnf_set_spec _ _ _) _ HCaps e) in He as [? _].
  - rewrite HPros, HE. set_solver.
  - intros e He. rewrite HE, elem_of_list_to_set in He.
    rewrite HPros, elem_of_difference, !elem_of_list_to_set,
      list_elem_of_filter.
    destruct (String.prefix "dem_" e); split; try done.
    + intros [_ Hnot]. destruct Hnot. by split.
    + intros _. split; [done|]. by intros [? _].
Qed.

Lemma model_sets_are_nested_witness :
  ∃ m, _init_sets System.cnf = Ok m ∧ model.Caps m ⊆ model.E m.
Proof.
  destruct (_init_sets System.cnf) as [m|] eqn:Hm; [|by vm_compute in Hm].
  exists m. split; [reflexivity|].
  destruct (model_sets_are_nested _ _ Hm) as (Hcaps & Hpros & _).
  intros e He. by apply Hpros, Hcaps.
Defined.

Lemma first_item_Ok l x : first_item l = Ok x → head l = Some x.
Proof. destruct l; simpl; congruence. Qed.

Lemma last_item_Ok l x : last_item l = Ok x → last l = Some x.
Proof. unfold last_item. destruct (last l); congruence. Qed.

(** X20: in a model whose sets were built, the base year is the first
    configured year and the base hour the first configured hour. [YALL]
    holds exactly the years from the first member of [Y] to its last member,
    both included (none when the last one is the smaller): the first member
    is the first configured year, and the last member is the configured year
    that appears last for the first time, a repeated year not being added
    again. It is the last configured year when no year is repeated. [DALL]
    holds the days 0 to 364. *)
Theorem all_years_span_first_to_last (cnf : Cnf) (m : ConcreteModel) :
  _init_sets cnf = Ok m →
  ∃ first_year last_year first_hour,
    head (YEARS cnf) = Some first_year
    ∧ last_to_appear (YEARS cnf) last_year
    ∧ (NoDup (YEARS cnf) → last (YEARS cnf) = Some last_year)
    ∧ head (HOURS cnf) = Some first_hour
    ∧ model.Y0 m = [first_year]
    ∧ model.H0 m = [first_hour]
    ∧ (∀ y, y ∈ model.YALL m ↔ (first_year ≤ y ≤ last_year)%Z)
    ∧ (∀ d, d ∈ model.DALL m ↔ (0 ≤ d < 365)%Z).
Proof.
  unfold _init_sets. intros Hm. inv_bind Hm. injection Hm as <-. simpl.
  repeat match goal with
  | H : first_item _ = Ok _ |- _ => apply first_item_Ok in H
  | H : last_item _ = Ok _ |- _ =>
      apply last_item_Ok, Set_ordered_last in H; rename H into Hlast
  | H : head (Set_ordered _) = _ |- _ => rewrite Set_ordered_head in H
  end.
  match goal with
  | H1 : head ?l = Some ?x, H2 : head ?l = Some ?y |- _ =>
      assert (y = x) as -> by congruence; clear H2
  end.
  eexists _, _, _. split_and!; try done.
  - intros Hnd. destruct Hlast as (pre & post & Hl & Hpre & Hpost).
    rewrite Hl in Hnd |- *.
    apply NoDup_app in Hnd as (_ & Hdisj & [Hx _]%NoDup_cons).
    destruct post as [|y post]; [by rewrite last_snoc|].
    destruct (Hpost y) as [Hy| ->]; [by left| |].
    + destruct (Hdisj y Hy). by right; left.
    + destruct Hx. by left.
  - intros y. unfold range. rewrite elem_of_seqZ. lia.
  - intros d. unfold range. rewrite elem_of_seqZ. lia.
Qed.

Lemma all_years_span_first_to_last_witness :
  ∃ m, _init_sets Repeated.cnf = Ok m
       ∧ 2023%Z ∈ model.YALL m ∧ 2026%Z ∉ model.YALL m.
Proof.
  destruct (_init_sets Repeated.cnf) as [m|] eqn:Hm; [|by vm_compute in Hm].
  exists m. split; [reflexivity|].
  destruct (all_years_span_first_to_last _ _ Hm)
    as (y0 & y1 & h0 & Hy0 & Hy1 & _ & _ & _ & _ & Hall & _).
  clear Hm. vm_compute in Hy0. injection Hy0 as <-.
  assert (y1 = 2025%Z) as ->.
  { clear -Hy1. destruct Hy1 as (pre & post & Hl & Hpre & Hpost).
    change (YEARS Repeated.cnf) with [2020; 2025; 2020]%Z in Hl.
    destruct pre as [|a [|b [|c pre]]]; simpl in Hl; simplify_eq.
    - destruct (Hpost 2025%Z) as [?%elem_of_nil|?]; [by left|done|done].
    - done.
    - destruct Hpre. by left.
    - by destruct pre. }
  split; [apply Hall; lia|]. intros ?%Hall. lia.
Defined.

(** X21: with no configured year, or no configured hour, [_init_sets]
    raises an [IndexError], whatever the rest of the configuration holds. *)
Theorem empty_years_or_hours_raise_IndexError (cnf : Cnf) :
  YEARS cnf = [] ∨ HOURS cnf = [] →
  _init_sets cnf = Raise IndexError.
Proof.
  unfold _init_sets. intros [Hy|Hh].
  - by rewrite Hy.
  - rewrite Hh. destruct (YEARS cnf) as [|y ys] eqn:Hy; [done|]. simpl.
    pose proof (Set_ordered_head (y :: ys)) as Hhead.
    destruct (Set_ordered (y :: ys)) as [|y' s] eqn:Hs; [done|]. simpl.
    unfold last_item. destruct (last (y' :: s)) eqn:Hlast; [done|].
    by apply last_None in Hlast.
Qed.

Lemma empty_years_or_hours_raise_IndexError_witness :
  _init_sets {| YEARS := [2020%Z]; DAYS := []; HOURS := []; ENTITIES := [];
                FLOWS := []; DATA := Samples.empty_store |}
  = Raise IndexError.
Proof. apply empty_years_or_hours_raise_IndexError. by right. Defined.

(** X22: the flow balance can always be built: once the sets, the
    parameters and the expressions went through, [init_model] returns a
    model with those sets; no rule of the balance degenerates to a plain
    boolean, since every flow of the model has a producer. *)
Theorem flow_balance_is_always_built
    (expressions : Cnf → ConcreteModel → result unit)
    (cnf : Cnf) (m0 : ConcreteModel) :
  _init_sets cnf = Ok m0 →
  _init_parameters cnf m0 = Ok tt →
  expressions cnf m0 = Ok tt →
  ∃ m, init_model expressions cnf = Ok m
       ∧ model.F m = model.F m0 ∧ model.FiE m = model.FiE m0
       ∧ model.FoE m = model.FoE m0
       ∧ ∀ f y d h, f ∈ model.F m0 → y ∈ model.Y m0 → d ∈ model.D m0 →
                    h ∈ model.H m0 →
                    is_Some (model.c_io_balance m !! (f, y, d, h)).
Proof.
  intros Hsets Hpar Hexpr.
  destruct (init_model_total expressions cnf m0 Hsets Hpar Hexpr) as [m Hm].
  exists m. split; [done|].
  destruct (init_model_inv _ _ _ Hm)
    as (m0' & Hsets' & _ & _ & _ & HF & _ & _ & _ & HFiE & HFoE & Hc).
  rewrite Hsets in Hsets'. injection Hsets' as <-.
  split; [done|]. split; [done|]. split; [done|].
  intros f y d h Hf Hy Hd Hh. unfold Constraint in Hc.
  destruct (Constraint_loop_lookup _ _ _ _ Hc f y d h) as [Hin _].
  destruct Hin as (c & _ & Hget); [by apply elem_of_balance_index|].
  by exists c.
Qed.

Lemma flow_balance_is_always_built_witness :
  ∃ m, init_model System.expressions System.cnf = Ok m.
Proof.
  destruct (_init_sets System.cnf) as [m0|] eqn:Hm0; [|by vm_compute in Hm0].
  destruct (flow_balance_is_always_built System.expressions System.cnf m0 Hm0)
    as (m & Hm & _).
  - assert (_init_sets System.cnf ≫= _init_parameters System.cnf = Ok tt)
      as Hpar by by vm_compute.
    by rewrite Hm0 in Hpar.
  - reflexivity.
  - by exists m.
Defined.

(** ** The passenger transport sector *)

Lemma passenger_is_not_demand e :
  String.prefix passenger.GROUP_ID e = true → String.prefix "dem_" e = false.
Proof.
  destruct e as [|a e]; [done|]. unfold passenger.GROUP_ID. intros Hp.
  change (String.prefix "conv_pass_" (String a e))
    with (if Ascii.ascii_dec
               (Ascii.Ascii true true false false false true true false) a
          then String.prefix "onv_pass_" e else false) in Hp.
  destruct (Ascii.ascii_dec _ a) as [<-|]; [reflexivity | discriminate].
Qed.

Lemma Set_within_Ok F E pairs :
  (∀ f e, (f, e) ∈ pairs → f ∈ F ∧ e ∈ E) →
  Set_within F E pairs = Ok (list_to_set pairs).
Proof.
  intros Hall. unfold Set_within. rewrite bool_decide_eq_true_2; [done|].
  apply Forall_forall. intros [f e]. apply Hall.
Qed.

Lemma passenger_sets_spec (cnf : Cnf) (m : ConcreteModel) :
  _init_sets cnf = Ok m →
  ∃ s, passenger._sets cnf m = Ok s
    ∧ (∀ e, e ∈ passenger.PassTrans s
            ↔ e ∈ ENTITIES cnf ∧ String.prefix "conv_pass_" e = true)
    ∧ passenger.PassTrans s ⊆ model.Pros m
    ∧ (∀ f e, (f, e) ∈ passenger.PassTransFoE s
              ↔ (f, e) ∈ model.FoE m ∧ e ∈ passenger.PassTrans s)
    ∧ (∀ f e, (f, e) ∈ passenger.PassTransFiE s
              ↔ (f, e) ∈ model.FiE m ∧ e ∈ passenger.PassTrans s).
Proof.
  intros Hm. destruct (init_sets_domains cnf m Hm) as [Hin Hout].
  apply init_sets_inv in Hm as (_ & _ & _ & HE & _ & HPros & _).
  unfold passenger._sets.
  assert (∀ techs rel f e,
            (f, e) ∈ passenger.pairs_of techs rel ↔ (f, e) ∈ rel ∧ e ∈ techs)
    as Hpairs.
  { intros techs rel f e. unfold passenger.pairs_of.
    rewrite list_elem_of_filter, elem_of_elements. simpl. tauto. }
  rewrite !Set_within_Ok.
  - simpl. eexists. split; [done|]. simpl.
    assert (∀ e, e ∈ (list_to_set
                        (filter (λ e, String.prefix passenger.GROUP_ID e = true)
                           (ENTITIES cnf)) : gset string)
                 ↔ e ∈ ENTITIES cnf ∧ String.prefix "conv_pass_" e = true)
      as Htechs.
    { intros e. rewrite elem_of_list_to_set, list_elem_of_filter.
      unfold passenger.GROUP_ID. tauto. }
    split; [done|]. split; [|split].
    + intros e [He Hp]%Htechs.
      rewrite HPros, elem_of_difference, !elem_of_list_to_set,
        list_elem_of_filter.
      split; [done|]. intros [Hdem _].
      by rewrite (passenger_is_not_demand e Hp) in Hdem.
    + intros f e. by rewrite elem_of_list_to_set, Hpairs.
    + intros f e. by rewrite elem_of_list_to_set, Hpairs.
  - intros f e [Hrel _]%Hpairs. by apply Hout.
  - intros f e [Hrel _]%Hpairs. by apply Hin.
Qed.

(** X23: on a model whose sets were built from the same configuration, the
    sets of the passenger sector are always built. The sector holds the
    entities whose identifier starts with [conv_pass_], which are all
    processes, and its two relations are the pairs of [FoE] and of [FiE]
    whose entity is in the sector. *)
Theorem passenger_sets_select_by_prefix (cnf : Cnf) (m : ConcreteModel) :
  _init_sets cnf = Ok m →
  ∃ s, passenger._sets cnf m = Ok s
    ∧ (∀ e, e ∈ passenger.PassTrans s
            ↔ e ∈ ENTITIES cnf ∧ String.prefix "conv_pass_" e = true)
    ∧ passenger.PassTrans s ⊆ model.Pros m
    ∧ (∀ f e, (f, e) ∈ passenger.PassTransFoE s
              ↔ (f, e) ∈ model.FoE m ∧ e ∈ passenger.PassTrans s)
    ∧ (∀ f e, (f, e) ∈ passenger.PassTransFiE s
              ↔ (f, e) ∈ model.FiE m ∧ e ∈ passenger.PassTrans s).
Proof. apply passenger_sets_spec. Qed.

Lemma passenger_sets_select_by_prefix_witness :
  ∃ m s, _init_sets Transport.cnf = Ok m
         ∧ passenger._sets Transport.cnf m = Ok s
         ∧ "conv_pass_car" ∈ passenger.PassTrans s
         ∧ "conv_elec_pv" ∉ passenger.PassTrans s
         ∧ ("pkm", "conv_pass_car") ∈ passenger.PassTransFoE s
         ∧ ("elec", "conv_pass_car") ∈ passenger.PassTransFiE s
         ∧ ("elec", "conv_elec_pv") ∉ passenger.PassTransFoE s.
Proof.
  destruct (_init_sets Transport.cnf) as [m|] eqn:Hm; [|by vm_compute in Hm].
  destruct (passenger_sets_select_by_prefix _ _ Hm)
    as (s & Hs & Htechs & _ & HFoE & HFiE).
  destruct (init_sets_relations _ _ Hm)
    as (FiE_df & FoE_df & Hi & Ho & Hin & Hout & _).
  pose proof (init_sets_inv _ _ Hm) as (_ & _ & _ & _ & HF & _).
  exists m, s. split; [reflexivity|]. split; [exact Hs|].
  clear Hm Hs. vm_compute in Hi, Ho. injection Hi as <-. injection Ho as <-.
  assert ("conv_pass_car" ∈ passenger.PassTrans s) as Hcar.
  { apply Htechs. split; [compute_done | reflexivity]. }
  assert ("conv_elec_pv" ∉ passenger.PassTrans s) as Hpv.
  { intros [_ Hp]%Htechs. discriminate. }
  split; [exact Hcar|]. split; [exact Hpv|]. split; [|split].
  - apply HFoE. split; [|exact Hcar]. apply Hout. rewrite HF.
    split; compute_done.
  - apply HFiE. split; [|exact Hcar]. apply Hin. rewrite HF.
    split; compute_done.
  - intros [_ ?]%HFoE. by apply Hpv.
Defined.

(** X24: a sector without entities is built without a sign: when no
    configured entity starts with [conv_pass_], the sets of the passenger
    sector are returned, and the three of them are empty. *)
Theorem passenger_sector_may_be_empty (cnf : Cnf) (m : ConcreteModel) :
  _init_sets cnf = Ok m →
  (∀ e, e ∈ ENTITIES cnf → String.prefix "conv_pass_" e = false) →
  passenger._sets cnf m
  = Ok {| passenger.PassTrans := ∅; passenger.PassTransFoE := ∅;
          passenger.PassTransFiE := ∅ |}.
Proof.
  intros Hm Hnone.
  destruct (passenger_sets_spec cnf m Hm)
    as (s & -> & Htechs & _ & HFoE & HFiE).
  f_equal. destruct s as [techs FoE FiE]. simpl in *.
  assert (techs = ∅) as ->.
  { apply set_eq. intros e. rewrite Htechs. split; [|by intros ?%not_elem_of_empty].
    intros [He Hp]. by rewrite (Hnone e He) in Hp. }
  f_equal.
  - apply set_eq. intros [f e]. rewrite HFoE. set_solver.
  - apply set_eq. intros [f e]. rewrite HFiE. set_solver.
Qed.

Lemma passenger_sector_may_be_empty_witness :
  ∃ m, _init_sets System.cnf = Ok m
       ∧ passenger._sets System.cnf m
         = Ok {| passenger.PassTrans := ∅; passenger.PassTransFoE := ∅;
                 passenger.PassTransFiE := ∅ |}.
Proof.
  destruct (_init_sets System.cnf) as [m|] eqn:Hm; [|by vm_compute in Hm].
  exists m. split; [reflexivity|].
  apply passenger_sector_may_be_empty; [done|].
  intros e He. apply list_elem_of_In in He. vm_compute in He.
  destruct He as [<-|[<-|[<-|[]]]]; reflexivity.
Defined.

(** ** A flow with one producer and one consumer *)

Lemma balance_constraint_at expressions cnf m f y d h :
  init_model expressions cnf = Ok m →
  f ∈ model.F m → y ∈ model.Y m → d ∈ model.D m → h ∈ model.H m →
  model.c_io_balance m !! (f, y, d, h)
  = Some (EqualityExpression
            (py_sum (Var <$> ((λ fe, fout fe.1 fe.2 y d h)
                                <$> at_flow f (model.FoE m))))
            (py_sum (Var <$> ((λ fe, fin fe.1 fe.2 y d h)
                                <$> at_flow f (model.FiE m))))).
Proof.
  intros (m0 & _ & -> & -> & -> & -> & _ & _ & _ & -> & -> & Hc)%init_model_inv
    Hf Hy Hd Hh.
  unfold Constraint in Hc.
  destruct (Constraint_loop_lookup _ _ _ _ Hc f y d h) as [Hin _].
  destruct Hin as (c & Hrule & Hget); [by apply elem_of_balance_index|].
  rewrite (c_io_balance_rule m0 f y d h Hy Hd Hh) in Hrule.
  injection Hrule as Hrule. apply py_eq_Relation in Hrule as ->. exact Hget.
Qed.

Lemma NoDup_only {A} (l : list A) (a : A) :
  NoDup l → (∀ x, x ∈ l ↔ x = a) → l = [a].
Proof.
  intros Hnd Hall. destruct l as [|x l].
  - pose proof (proj2 (Hall a) eq_refl) as Hin. by apply elem_of_nil in Hin.
  - assert (x = a) as -> by (apply Hall; by left).
    apply NoDup_cons in Hnd as [Hnotin _].
    destruct l as [|y l]; [done|].
    assert (y = a) as -> by (apply Hall; right; by left).
    destruct Hnotin. by left.
Qed.

(** X25: for a flow that exactly one entity produces and exactly one entity
    consumes, the balance at an index of the model is satisfied by an
    assignment exactly when the outflow variable of the producer and the
    inflow variable of the consumer have the same value at that year, day
    and hour. *)
Theorem balance_of_a_single_pair
    (expressions : Cnf → ConcreteModel → result unit)
    (cnf : Cnf) (m : ConcreteModel) (f producer consumer : string)
    (y d h : Z) :
  init_model expressions cnf = Ok m →
  f ∈ model.F m → y ∈ model.Y m → d ∈ model.D m → h ∈ model.H m →
  (∀ e, (f, e) ∈ model.FoE m ↔ e = producer) →
  (∀ e, (f, e) ∈ model.FiE m ↔ e = consumer) →
  ∃ c, model.c_io_balance m !! (f, y, d, h) = Some c
       ∧ ∀ ρ, holds ρ c
              ↔ (ρ (fout f producer y d h) == ρ (fin f consumer y d h))%Q.
Proof.
  intros Hm Hf Hy Hd Hh Hout Hin.
  eexists. split; [by apply (balance_constraint_at _ _ _ _ _ _ _ Hm)|].
  assert (∀ rel e0, (∀ e, (f, e) ∈ rel ↔ e = e0) → at_flow f rel = [(f, e0)])
    as Hone.
  { intros rel e0 Hrel. apply NoDup_only.
    - apply NoDup_filter, NoDup_elements.
    - intros [f' e]. unfold at_flow.
      rewrite list_elem_of_filter, elem_of_elements. simpl. split.
      + intros [-> He]. f_equal. by apply Hrel.
      + intros [= -> ->]. split; [done|]. by apply Hrel. }
  rewrite (Hone _ _ Hout), (Hone _ _ Hin). intros ρ. simpl.
  split; intros Heq.
  - rewrite !Qplus_0_l in Heq. exact Heq.
  - by rewrite !Qplus_0_l.
Qed.

Lemma balance_of_a_single_pair_witness :
  ∃ m c,
    init_model System.expressions System.cnf = Ok m
    ∧ model.c_io_balance m !! ("sun", 2020%Z, 0%Z, 12%Z) = Some c
    ∧ ∀ ρ, holds ρ c
           ↔ (ρ (fout "sun" "ext_sun" 2020 0 12)
              == ρ (fin "sun" "conv_elec_pv" 2020 0 12))%Q.
Proof.
  destruct (init_model System.expressions System.cnf) as [m|] eqn:Hm;
    [|by vm_compute in Hm].
  assert (match init_model System.expressions System.cnf with
          | Ok m' =>
              elements (model.F m') = ["sun"; "elec"]
              ∧ model.Y m' = [2020; 2025]%Z ∧ model.D m' = [0]%Z
              ∧ model.H m' = [0; 12]%Z
              ∧ elements (model.FoE m')
                = [("sun", "ext_sun"); ("elec", "conv_elec_pv")]
              ∧ elements (model.FiE m')
                = [("sun", "conv_elec_pv"); ("elec", "dem_elec")]
          | Raise _ => False
          end) as Hsets by (vm_compute; by repeat split).
  rewrite Hm in Hsets. destruct Hsets as (HF & HY & HD & HH & HFoE & HFiE).
  assert (∀ (rel : gset (string * string)) e0 rest,
            elements rel = ("sun", e0) :: rest →
            (∀ e, ("sun", e) ∉ rest) →
            ∀ e, ("sun", e) ∈ rel ↔ e = e0) as Hrel.
  { intros rel e0 rest Hel Hrest e.
    rewrite <- elem_of_elements, Hel, elem_of_cons. split.
    - intros [[= ->]|Hin]; [done|]. by destruct (Hrest e).
    - intros ->. by left. }
  destruct (balance_of_a_single_pair System.expressions System.cnf m "sun"
              "ext_sun" "conv_elec_pv" 2020 0 12 Hm) as (c & Hc & Hholds).
  - rewrite <- elem_of_elements, HF. by left.
  - rewrite HY. by left.
  - rewrite HD. by left.
  - rewrite HH. right. by left.
  - apply (Hrel _ _ _ HFoE). intros e [[=]|[]%elem_of_nil]%elem_of_cons.
  - apply (Hrel _ _ _ HFiE). intros e [[=]|[]%elem_of_nil]%elem_of_cons.
  - exists m, c. split; [reflexivity|]. split; [exact Hc | exact Hholds].
Defined.
